(** * VMAP model placement: ModelSpawn and ModelInstance

    A shallow embedding of [src/game/vmap/ModelInstance.cpp]: the
    construction of a placed model instance, its four queries
    (ray intersection, point lookup, ground-location lookup, liquid
    level) and the binary encoding of placement records.

    The C++ [float] is kept abstract behind the interface [FloatOps], so
    that every control-flow property holds for any arithmetic.  Two
    instances are given: IEEE-754 binary32 (bit patterns evaluated with the
    Standard Library's [SpecFloat]), which is what the compiled code runs
    on, and the real numbers, where exact matrix algebra can be stated. *)

From Stdlib Require Import ZArith List Bool Lia.
From Stdlib Require Import Reals Lra Psatz.
From Stdlib Require Floats.SpecFloat.
From coqutil Require Import Byte Word.LittleEndianList.
Import ListNotations.

Set Implicit Arguments.

(** ** Scalars *)

(** The operations the source applies to [float] values. [fleb a b] is the
    C++ [a <= b] (and [b >= a]), [fltb a b] is [a < b], [feqb] is [==]. *)
Class FloatOps (float : Type) : Type := {
  fzero : float;
  fone : float;
  finf : float;
  fopp : float -> float;
  fadd : float -> float -> float;
  fsub : float -> float -> float;
  fmul : float -> float -> float;
  fdiv : float -> float -> float;
  feqb : float -> float -> bool;
  fltb : float -> float -> bool;
  fleb : float -> float -> bool
}.

(** What the constructor needs on top of the arithmetic: the constant
    [G3D::pi()], the literal [180.f] and the trigonometric functions used
    by [Matrix3::fromEulerAnglesZYX]. *)
Class TrigOps (float : Type) : Type := {
  fpi : float;
  f180 : float;
  fcos : float -> float;
  fsin : float -> float
}.

(** How a [float] sits in memory: its 32-bit pattern. *)
Class FloatRep (float : Type) : Type := {
  float_bits : float -> Z;
  float_of_bits : Z -> float
}.

Declare Scope float_scope.
Delimit Scope float_scope with flt.
Infix "+" := fadd : float_scope.
Infix "-" := fsub : float_scope.
Infix "*" := fmul : float_scope.
Infix "/" := fdiv : float_scope.
Notation "- x" := (fopp x) : float_scope.

(** ** The G3D value types used by the source *)

Module G3D.
Section Types.
Context {float : Type} {FO : FloatOps float}.
Local Open Scope float_scope.

Record Vector3 : Type := mkVector3 { x : float; y : float; z : float }.

(** Row-major 3x3 matrix, [elt r c] written [m<r><c>]. *)
Record Matrix3 : Type := mkMatrix3 {
  m00 : float; m01 : float; m02 : float;
  m10 : float; m11 : float; m12 : float;
  m20 : float; m21 : float; m22 : float
}.

Record AABox : Type := mkAABox { low : Vector3; high : Vector3 }.

Record Ray : Type := mkRay { origin : Vector3; direction : Vector3 }.

(** Modelled from the spec: the G3D vector and matrix operators are not
    under src/; these are the component-wise operations the spec's
    transform formulas denote, with sums associated to the left. *)
Definition vadd (a b : Vector3) : Vector3 :=
  mkVector3 (x a + x b) (y a + y b) (z a + z b).

Definition vsub (a b : Vector3) : Vector3 :=
  mkVector3 (x a - x b) (y a - y b) (z a - z b).

(** [v * s] and [s * v]. *)
Definition vscale (v : Vector3) (s : float) : Vector3 :=
  mkVector3 (x v * s) (y v * s) (z v * s).

(** [M * v]: the matrix applied to a column vector. *)
Definition mulMV (m : Matrix3) (v : Vector3) : Vector3 :=
  mkVector3
    (m00 m * x v + m01 m * y v + m02 m * z v)
    (m10 m * x v + m11 m * y v + m12 m * z v)
    (m20 m * x v + m21 m * y v + m22 m * z v).

(** [v * M]: a row vector times the matrix. *)
Definition mulVM (v : Vector3) (m : Matrix3) : Vector3 :=
  mkVector3
    (x v * m00 m + y v * m10 m + z v * m20 m)
    (x v * m01 m + y v * m11 m + z v * m21 m)
    (x v * m02 m + y v * m12 m + z v * m22 m).

Definition mulMM (a b : Matrix3) : Matrix3 :=
  mkMatrix3
    (m00 a * m00 b + m01 a * m10 b + m02 a * m20 b)
    (m00 a * m01 b + m01 a * m11 b + m02 a * m21 b)
    (m00 a * m02 b + m01 a * m12 b + m02 a * m22 b)
    (m10 a * m00 b + m11 a * m10 b + m12 a * m20 b)
    (m10 a * m01 b + m11 a * m11 b + m12 a * m21 b)
    (m10 a * m02 b + m11 a * m12 b + m12 a * m22 b)
    (m20 a * m00 b + m21 a * m10 b + m22 a * m20 b)
    (m20 a * m01 b + m21 a * m11 b + m22 a * m21 b)
    (m20 a * m02 b + m21 a * m12 b + m22 a * m22 b).

Definition identity : Matrix3 :=
  mkMatrix3 fone fzero fzero
            fzero fone fzero
            fzero fzero fone.

Definition determinant (m : Matrix3) : float :=
  m00 m * (m11 m * m22 m - m12 m * m21 m)
  + m01 m * (m12 m * m20 m - m10 m * m22 m)
  + m02 m * (m10 m * m21 m - m11 m * m20 m).

(** Modelled from the spec: [Matrix3::inverse] is not under src/; the
    matrix inverse by cofactors, every cofactor scaled by the reciprocal
    of the determinant. *)
Definition inverse (m : Matrix3) : Matrix3 :=
  let i := fone / determinant m in
  mkMatrix3
    ((m11 m * m22 m - m12 m * m21 m) * i)
    ((m02 m * m21 m - m01 m * m22 m) * i)
    ((m01 m * m12 m - m02 m * m11 m) * i)
    ((m12 m * m20 m - m10 m * m22 m) * i)
    ((m00 m * m22 m - m02 m * m20 m) * i)
    ((m02 m * m10 m - m00 m * m12 m) * i)
    ((m10 m * m21 m - m11 m * m20 m) * i)
    ((m01 m * m20 m - m00 m * m21 m) * i)
    ((m00 m * m11 m - m01 m * m10 m) * i).

(** Modelled from the spec: [AABox::contains] is not under src/; a point
    is inside when each coordinate lies between the two corners,
    borders included. *)
Definition contains (b : AABox) (p : Vector3) : bool :=
  fleb (x (low b)) (x p) && fleb (y (low b)) (y p) && fleb (z (low b)) (z p)
  && fleb (x p) (x (high b)) && fleb (y p) (y (high b))
  && fleb (z p) (z (high b)).

Section Euler.
Context {TO : TrigOps float}.

(** Modelled from the spec: [Matrix3::fromEulerAnglesZYX] is not under
    src/; the rotation composed in ZYX order, yaw about Z, then pitch
    about Y, then roll about X: [Rz(yaw) * (Ry(pitch) * Rx(roll))]. *)
Definition fromEulerAnglesZYX (yaw pitch roll : float) : Matrix3 :=
  let kZMat := mkMatrix3 (fcos yaw) (- fsin yaw) fzero
                         (fsin yaw) (fcos yaw) fzero
                         fzero fzero fone in
  let kYMat := mkMatrix3 (fcos pitch) fzero (fsin pitch)
                         fzero fone fzero
                         (- fsin pitch) fzero (fcos pitch) in
  let kXMat := mkMatrix3 fone fzero fzero
                         fzero (fcos roll) (- fsin roll)
                         fzero (fsin roll) (fcos roll) in
  mulMM kZMat (mulMM kYMat kXMat).
End Euler.
End Types.
Arguments Vector3 : clear implicits.
Arguments Matrix3 : clear implicits.
Arguments AABox : clear implicits.
Arguments Ray : clear implicits.
End G3D.

(** ** Placement records, instances and the mesh collaborator *)

Module VMAP.
Import G3D.

Section Model.
Context {float : Type} {FO : FloatOps float}.
Local Open Scope float_scope.

Local Abbreviation Vector3 := (G3D.Vector3 float).
Local Abbreviation Matrix3 := (G3D.Matrix3 float).
Local Abbreviation AABox := (G3D.AABox float).
Local Abbreviation Ray := (G3D.Ray float).

(** [struct ModelSpawn]: [flags] is a uint32, [adtId] a uint16, [ID] a
    uint32, all kept as [Z]; [name] is the bytes of the [std::string]. *)
Record ModelSpawn : Type := mkModelSpawn {
  flags : Z;
  adtId : Z;
  ID : Z;
  iPos : Vector3;
  iRot : Vector3;
  iScale : float;
  iBound : AABox;
  name : list byte
}.

(** The sub-group of a mesh ([GroupModel]), seen through the one method
    the source calls on it: [GetLiquidLevel(pos, liqHeight&)] gives its
    return value and what it leaves in the out-parameter. *)
Record GroupModel : Type := mkGroupModel {
  gm_GetLiquidLevel : Vector3 -> bool * float
}.

(** Modelled from the spec: [struct GroupLocationInfo] is declared
    outside src/; the sub-group hit and the root identifier that the
    mesh collaborator returns. *)
Record GroupLocationInfo : Type := mkGroupLocationInfo {
  gl_hitModel : option GroupModel;
  gl_rootId : Z
}.

(** Modelled from the spec: [struct AreaInfo] is declared outside src/;
    the source reads and writes [ground_Z] and [adtId], the other fields
    belong to the mesh collaborator. *)
Record AreaInfo : Type := mkAreaInfo {
  ai_result : bool;
  ai_ground_Z : float;
  ai_flags : Z;
  ai_adtId : Z;
  ai_rootId : Z;
  ai_groupId : Z
}.

(** The mesh collaborator ([WorldModel]) as the interface the source
    dispatches to.  Reference parameters are returned next to the
    result: [IntersectRay] gives back the distance, [IntersectPoint] the
    probe distance and the [AreaInfo] it was handed, [GetLocationInfo]
    the probe distance and the group information. *)
Record WorldModel : Type := mkWorldModel {
  wm_IntersectRay : Ray -> float -> bool -> bool -> bool * float;
  wm_IntersectPoint : Vector3 -> Vector3 -> AreaInfo -> bool * float * AreaInfo;
  wm_GetLocationInfo :
    Vector3 -> Vector3 -> GroupLocationInfo -> bool * float * GroupLocationInfo
}.

(** [class ModelInstance : public ModelSpawn]. *)
Record ModelInstance : Type := mkModelInstance {
  spawn :> ModelSpawn;
  iInvRot : Matrix3;
  iInvScale : float;
  iModel : option WorldModel
}.

(** Modelled from the spec: [struct LocationInfo] is declared outside
    src/; the back-references are non-owning handles, kept here as the
    referenced values. *)
Record LocationInfo : Type := mkLocationInfo {
  li_hitInstance : option ModelInstance;
  li_hitModel : option GroupModel;
  li_ground_Z : float;
  li_rootId : Z
}.

(** The default-constructed [GroupLocationInfo groupInfo;]. *)
Definition GroupLocationInfo_default : GroupLocationInfo :=
  mkGroupLocationInfo None (-1).

Definition set_ground_adt (info : AreaInfo) (g : float) (a : Z) : AreaInfo :=
  mkAreaInfo (ai_result info) g (ai_flags info) a (ai_rootId info)
             (ai_groupId info).

(** *** Construction *)
Section Construction.
Context {TO : TrigOps float}.

(** [G3D::pi() * a / 180.f].  [G3D::pi()] is a double, so the source
    evaluates product and quotient in double and rounds to float once,
    when the angle is passed on; here both operations are those of the
    one scalar type, which agrees with the source in exact arithmetic
    and can differ from it in the last bit at binary32.  The statements
    on the constructor are made in exact arithmetic. *)
Definition radians (a : float) : float := fpi * a / f180.

(** [ModelInstance::ModelInstance(spawn, model)] *)
Definition ModelInstance_new (sp : ModelSpawn) (model : option WorldModel)
  : ModelInstance :=
  mkModelInstance sp
    (inverse (fromEulerAnglesZYX (radians (y (iRot sp)))
                                 (radians (x (iRot sp)))
                                 (radians (z (iRot sp)))))
    (fone / iScale sp)
    model.
End Construction.

(** *** Queries

    A query runs against the mesh collaborator.  Every call it makes is
    appended to a log, and dereferencing a null pointer ends it with
    [NullDereference]. *)
Inductive MeshCall : Type :=
| CallIntersectRay (modRay : Ray) (distance : float) (stop ign : bool)
| CallIntersectPoint (pModel zDirModel : Vector3)
| CallGetLocationInfo (pModel zDirModel : Vector3)
| CallGetLiquidLevel (pModel : Vector3).

Inductive Outcome (A : Type) : Type :=
| Returns (a : A) (calls : list MeshCall)
| NullDereference.
Arguments NullDereference {A}.

Definition Query (A : Type) : Type := list MeshCall -> Outcome A.

Definition ret {A} (a : A) : Query A := fun calls => Returns a calls.

Definition bind {A B} (q : Query A) (k : A -> Query B) : Query B :=
  fun calls =>
    match q calls with
    | Returns a calls' => k a calls'
    | NullDereference => NullDereference
    end.

Definition null_dereference {A} : Query A := fun _ => NullDereference.

Definition invoke {A} (c : MeshCall) (r : A) : Query A :=
  fun calls => Returns r (calls ++ [c]).

Local Notation "x <- q ;; k" := (bind q (fun x => k))
  (at level 61, q at next level, right associativity).
Local Notation "' pat <- q ;; k" := (bind q (fun x => let 'pat := x in k))
  (at level 61, pat pattern, q at next level, right associativity).

(** Modelled from the spec: [Ray::intersectionTime(AABox)] is not under
    src/; the entry time of the ray into the box, [finf] on a miss.  It
    is a parameter of the queries. *)
Variable intersectionTime : Ray -> AABox -> float.

(** [enum ModelFlags] is declared outside src/; the bit of simple prop
    (M2) models is a parameter. *)
Variable MOD_M2 : Z.

(** The object-space image of a world-space point:
    [iInvRot * (p - iPos) * iInvScale]. *)
Definition toModel (this : ModelInstance) (p : Vector3) : Vector3 :=
  vscale (mulMV (iInvRot this) (vsub p (iPos this))) (iInvScale this).

(** The probe direction [iInvRot * Vector3(0.f, 0.f, -1.f)]. *)
Definition zDirModel (this : ModelInstance) : Vector3 :=
  mulMV (iInvRot this) (mkVector3 fzero fzero (- fone)).

(** [bool ModelInstance::intersectRay(pRay, pMaxDist&, pStopAtFirstHit,
    ignoreM2Model)]; gives the return value and the final [pMaxDist]. *)
Definition intersectRay (this : ModelInstance) (pRay : Ray)
    (pMaxDist : float) (pStopAtFirstHit ignoreM2Model : bool)
    : Query (bool * float) :=
  match iModel this with
  | None => ret (false, pMaxDist)
  | Some model =>
    let time := intersectionTime pRay (iBound this) in
    if feqb time finf then ret (false, pMaxDist)
    else
      let p := vscale (mulMV (iInvRot this) (vsub (origin pRay) (iPos this)))
                      (iInvScale this) in
      let modRay := mkRay p (mulMV (iInvRot this) (direction pRay)) in
      let distance := pMaxDist * iInvScale this in
      '(hit, distance) <-
        invoke (CallIntersectRay modRay distance pStopAtFirstHit ignoreM2Model)
               (wm_IntersectRay model modRay distance pStopAtFirstHit
                                ignoreM2Model) ;;
      if hit
      then let distance := distance * iScale this in ret (hit, distance)
      else ret (hit, pMaxDist)
  end.

(** [void ModelInstance::intersectPoint(p, info&)]; gives the final
    [info]. *)
Definition intersectPoint (this : ModelInstance) (p : Vector3)
    (info : AreaInfo) : Query AreaInfo :=
  match iModel this with
  | None => ret info
  | Some model =>
    if negb (Z.land (flags this) MOD_M2 =? 0)%Z then ret info
    else if negb (contains (iBound this) p) then ret info
    else
      let pModel := vscale (mulMV (iInvRot this) (vsub p (iPos this)))
                           (iInvScale this) in
      let zDirModel := mulMV (iInvRot this) (mkVector3 fzero fzero (- fone)) in
      '(hit, zDist, info) <-
        invoke (CallIntersectPoint pModel zDirModel)
               (wm_IntersectPoint model pModel zDirModel info) ;;
      if hit
      then
        let modelGround := vadd pModel (vscale zDirModel zDist) in
        let world_Z :=
          z (vadd (vscale (mulVM modelGround (iInvRot this)) (iScale this))
                  (iPos this)) in
        if fltb (ai_ground_Z info) world_Z
        then ret (set_ground_adt info world_Z (adtId this))
        else ret info
      else ret info
  end.

(** [bool ModelInstance::GetLocationInfo(p, info&)]; gives the return
    value and the final [info]. *)
Definition GetLocationInfo (this : ModelInstance) (p : Vector3)
    (info : LocationInfo) : Query (bool * LocationInfo) :=
  match iModel this with
  | None => ret (false, info)
  | Some model =>
    if negb (Z.land (flags this) MOD_M2 =? 0)%Z then ret (false, info)
    else if negb (contains (iBound this) p) then ret (false, info)
    else
      let pModel := vscale (mulMV (iInvRot this) (vsub p (iPos this)))
                           (iInvScale this) in
      let zDirModel := mulMV (iInvRot this) (mkVector3 fzero fzero (- fone)) in
      let groupInfo := GroupLocationInfo_default in
      '(hit, zDist, groupInfo) <-
        invoke (CallGetLocationInfo pModel zDirModel)
               (wm_GetLocationInfo model pModel zDirModel groupInfo) ;;
      if hit
      then
        let modelGround := vadd pModel (vscale zDirModel zDist) in
        let world_Z :=
          z (vadd (vscale (mulVM modelGround (iInvRot this)) (iScale this))
                  (iPos this)) in
        if fltb (li_ground_Z info) world_Z
        then ret (true,
                  mkLocationInfo (Some this) (gl_hitModel groupInfo) world_Z
                                 (gl_rootId groupInfo))
        else ret (false, info)
      else ret (false, info)
  end.

(** [bool ModelInstance::GetLiquidLevel(p, info&, liqHeight&)]; gives the
    return value and the final [liqHeight].  [info.hitModel] is
    dereferenced without a test. *)
Definition GetLiquidLevel (this : ModelInstance) (p : Vector3)
    (info : LocationInfo) (liqHeight : float) : Query (bool * float) :=
  let pModel := vscale (mulMV (iInvRot this) (vsub p (iPos this)))
                       (iInvScale this) in
  match li_hitModel info with
  | None => null_dereference
  | Some hitModel =>
    '(found, zDist) <-
      invoke (CallGetLiquidLevel pModel) (gm_GetLiquidLevel hitModel pModel) ;;
    if found
    then
      let liqHeight :=
        z (vadd (vscale (mulVM (mkVector3 (x pModel) (y pModel) zDist)
                               (iInvRot this))
                        (iScale this))
                (iPos this)) in
      ret (true, liqHeight)
    else ret (false, liqHeight)
  end.

(** The back-transform of an object-space point to its world-space
    height, [((v * iInvRot) * iScale + iPos).z]. *)
Definition worldHeight (this : ModelInstance) (v : Vector3) : float :=
  z (vadd (vscale (mulVM v (iInvRot this)) (iScale this)) (iPos this)).

(** The object-space ground point [pModel + zDist * zDirModel]. *)
Definition modelGround (this : ModelInstance) (p : Vector3) (zDist : float)
  : Vector3 :=
  vadd (toModel this p) (vscale (zDirModel this) zDist).
End Model.

Arguments ModelSpawn : clear implicits.
Arguments GroupModel : clear implicits.
Arguments GroupLocationInfo : clear implicits.
Arguments AreaInfo : clear implicits.
Arguments WorldModel : clear implicits.
Arguments ModelInstance : clear implicits.
Arguments LocationInfo : clear implicits.
Arguments MeshCall : clear implicits.
Arguments Outcome : clear implicits.
Arguments Query : clear implicits.
Arguments NullDereference {float A}.
End VMAP.

(** ** Binary encoding of placement records *)

Module Codec.
Import G3D VMAP.

Section Serialization.
Context {float : Type} {FR : FloatRep float}.
Local Open Scope Z_scope.

Local Abbreviation Vector3 := (G3D.Vector3 float).
Local Abbreviation ModelSpawn := (VMAP.ModelSpawn float).

(** [enum ModelFlags] is declared outside src/; the bit that says a
    record carries its bounding box is a parameter. *)
Variable MOD_HAS_BOUND : Z.

(** A [FILE*] opened for reading: the bytes not read yet. *)
Definition rfile : Type := list byte.

(** A [FILE*] opened for writing: the bytes written so far and the room
    left for further bytes. *)
Record wfile : Type := mkWfile { wbytes : list byte; wroom : nat }.

(** [fread(ptr, size, count, rf)]: the number of complete elements
    obtained, the bytes copied to [ptr], and the stream afterwards.  The
    stream moves past everything it could deliver, so a short read
    leaves it at its end.  The bytes of an element that is only partly
    there do not count as an element, but they are copied to [ptr] like
    the others, as the C library does it (the C standard leaves the
    value of such an element indeterminate). *)
Definition fread (size count : nat) (rf : rfile) : nat * list byte * rfile :=
  let n := Nat.min count (length rf / size) in
  (n, firstn (count * size) rf, skipn (count * size) rf).

(** [fwrite(ptr, size, count, wf)]: the number of complete elements
    written and the stream afterwards.  This is a stream that takes
    every byte while room is left.  What a stream of the C library does
    when room runs out depends on its buffer (a buffered stream reports
    the full count and fails later, at the flush), so the statements on
    [writeToFile] are made for streams with room only. *)
Definition fwrite (size count : nat) (data : list byte) (wf : wfile)
  : nat * wfile :=
  let n := Nat.min count (wroom wf / size) in
  (n, mkWfile (wbytes wf ++ firstn (n * size) data) (wroom wf - n * size)).

(** [uint32] arithmetic. *)
Definition u32 (v : Z) : Z := v mod 2 ^ 32.
Definition add32 (a : Z) (n : nat) : Z := u32 (a + Z.of_nat n).

Definition float_bytes (f : float) : list byte := le_split 4 (float_bits f).

(** The bytes of a destination that held the bytes [old], after [bs]
    were copied to its start: [bs], then the bytes of [old] that were
    not reached. *)
Definition overwritten (bs old : list byte) : list byte :=
  bs ++ skipn (length bs) old.

(** What a destination of one integer of [size] bytes holds after an
    [fread] copied [bs] to it.  Nothing copied leaves it as it was; the
    bytes of a partly delivered integer replace its low-order bytes. *)
Definition load_uint (size : nat) (bs : list byte) (old : Z) : Z :=
  match bs with
  | [] => old
  | _ :: _ => le_combine (overwritten bs (le_split size old))
  end.

(** The [k]-th float of a destination after an [fread] copied [bs] to
    the start of the destination. *)
Definition load_float (k : nat) (bs : list byte) (old : float) : float :=
  match firstn 4 (skipn (4 * k) bs) with
  | [] => old
  | (_ :: _) as c =>
    float_of_bits (le_combine (overwritten c (float_bytes old)))
  end.

Definition load_Vector3 (bs : list byte) (old : Vector3) : Vector3 :=
  mkVector3 (load_float 0 bs (x old)) (load_float 1 bs (y old))
            (load_float 2 bs (z old)).

Definition Vector3_bytes (v : Vector3) : list byte :=
  float_bytes (x v) ++ float_bytes (y v) ++ float_bytes (z v).

(** The default-constructed [Vector3 bLow, bHigh;]. *)
Definition Vector3_zero : Vector3 :=
  mkVector3 (float_of_bits 0) (float_of_bits 0) (float_of_bits 0).

Definition set_flags (s : ModelSpawn) (v : Z) : ModelSpawn :=
  mkModelSpawn v (adtId s) (ID s) (iPos s) (iRot s) (iScale s) (iBound s)
               (name s).
Definition set_adtId (s : ModelSpawn) (v : Z) : ModelSpawn :=
  mkModelSpawn (flags s) v (ID s) (iPos s) (iRot s) (iScale s) (iBound s)
               (name s).
Definition set_ID (s : ModelSpawn) (v : Z) : ModelSpawn :=
  mkModelSpawn (flags s) (adtId s) v (iPos s) (iRot s) (iScale s) (iBound s)
               (name s).
Definition set_iPos (s : ModelSpawn) (v : Vector3) : ModelSpawn :=
  mkModelSpawn (flags s) (adtId s) (ID s) v (iRot s) (iScale s) (iBound s)
               (name s).
Definition set_iRot (s : ModelSpawn) (v : Vector3) : ModelSpawn :=
  mkModelSpawn (flags s) (adtId s) (ID s) (iPos s) v (iScale s) (iBound s)
               (name s).
Definition set_iScale (s : ModelSpawn) (v : float) : ModelSpawn :=
  mkModelSpawn (flags s) (adtId s) (ID s) (iPos s) (iRot s) v (iBound s)
               (name s).
Definition set_iBound (s : ModelSpawn) (v : G3D.AABox float) : ModelSpawn :=
  mkModelSpawn (flags s) (adtId s) (ID s) (iPos s) (iRot s) (iScale s) v
               (name s).
Definition set_name (s : ModelSpawn) (v : list byte) : ModelSpawn :=
  mkModelSpawn (flags s) (adtId s) (ID s) (iPos s) (iRot s) (iScale s)
               (iBound s) v.

(** [(flags & MOD_HAS_BOUND) != 0] *)
Definition has_bound_flag (fl : Z) : bool :=
  negb (Z.land fl MOD_HAS_BOUND =? 0).

(** [uint32(has_bound ? 17 : 11)] *)
Definition expected_fields (has_bound : bool) : Z :=
  if has_bound then 17 else 11.

(** [bool ModelSpawn::readFromFile(FILE* rf, ModelSpawn& spawn)]; gives
    the return value, the final [spawn] and the stream afterwards.
    Diagnostics are not modelled. *)
Definition readFromFile (rf : rfile) (spawn : ModelSpawn)
  : bool * ModelSpawn * rfile :=
  let check := 0 in
  let nameLen := 0 in
  let '(n, bs, rf) := fread 4 1 rf in
  let spawn := set_flags spawn (load_uint 4 bs (flags spawn)) in
  let check := add32 check n in
  if check =? 0 then (false, spawn, rf)
  else
    let '(n, bs, rf) := fread 2 1 rf in
    let spawn := set_adtId spawn (load_uint 2 bs (adtId spawn)) in
    let check := add32 check n in
    let '(n, bs, rf) := fread 4 1 rf in
    let spawn := set_ID spawn (load_uint 4 bs (ID spawn)) in
    let check := add32 check n in
    let '(n, bs, rf) := fread 4 3 rf in
    let spawn := set_iPos spawn (load_Vector3 bs (iPos spawn)) in
    let check := add32 check n in
    let '(n, bs, rf) := fread 4 3 rf in
    let spawn := set_iRot spawn (load_Vector3 bs (iRot spawn)) in
    let check := add32 check n in
    let '(n, bs, rf) := fread 4 1 rf in
    let spawn := set_iScale spawn (load_float 0 bs (iScale spawn)) in
    let check := add32 check n in
    let has_bound := has_bound_flag (flags spawn) in
    let '(check, spawn, rf) :=
      if has_bound
      then
        let '(n, bs, rf) := fread 4 3 rf in
        let bLow := load_Vector3 bs Vector3_zero in
        let check := add32 check n in
        let '(n, bs, rf) := fread 4 3 rf in
        let bHigh := load_Vector3 bs Vector3_zero in
        let check := add32 check n in
        (check, set_iBound spawn (mkAABox bLow bHigh), rf)
      else (check, spawn, rf) in
    let '(n, bs, rf) := fread 4 1 rf in
    let nameLen := load_uint 4 bs nameLen in
    let check := add32 check n in
    if negb (check =? expected_fields has_bound) then (false, spawn, rf)
    else if 500 <? nameLen then (false, spawn, rf)
    else
      let '(n, nameBuff, rf) := fread 1 (Z.to_nat nameLen) rf in
      let check := u32 (Z.of_nat n) in
      if negb (check =? nameLen) then (false, spawn, rf)
      else (true, set_name spawn (firstn (Z.to_nat nameLen) nameBuff), rf).

(** [bool ModelSpawn::writeToFile(FILE* wf, const ModelSpawn& spawn)];
    gives the return value and the stream afterwards. *)
Definition writeToFile (wf : wfile) (spawn : ModelSpawn) : bool * wfile :=
  let check := 0 in
  let '(n, wf) := fwrite 4 1 (le_split 4 (flags spawn)) wf in
  let check := add32 check n in
  let '(n, wf) := fwrite 2 1 (le_split 2 (adtId spawn)) wf in
  let check := add32 check n in
  let '(n, wf) := fwrite 4 1 (le_split 4 (ID spawn)) wf in
  let check := add32 check n in
  let '(n, wf) := fwrite 4 3 (Vector3_bytes (iPos spawn)) wf in
  let check := add32 check n in
  let '(n, wf) := fwrite 4 3 (Vector3_bytes (iRot spawn)) wf in
  let check := add32 check n in
  let '(n, wf) := fwrite 4 1 (float_bytes (iScale spawn)) wf in
  let check := add32 check n in
  let has_bound := has_bound_flag (flags spawn) in
  let '(check, wf) :=
    if has_bound
    then
      let '(n, wf) := fwrite 4 3 (Vector3_bytes (low (iBound spawn))) wf in
      let check := add32 check n in
      let '(n, wf) := fwrite 4 3 (Vector3_bytes (high (iBound spawn))) wf in
      let check := add32 check n in
      (check, wf)
    else (check, wf) in
  let nameLen := u32 (Z.of_nat (length (name spawn))) in
  let '(n, wf) := fwrite 4 1 (le_split 4 nameLen) wf in
  let check := add32 check n in
  if negb (check =? expected_fields has_bound) then (false, wf)
  else
    let '(n, wf) := fwrite 1 (Z.to_nat nameLen) (name spawn) wf in
    let check := u32 (Z.of_nat n) in
    (check =? nameLen, wf).

(** The layout of a record as the specification words it: flags:u32,
    tileId:u16, id:u32, position:3xf32, rotation:3xf32, scale:f32,
    the two corners of the bound if the has-bound flag is set,
    nameLength:u32, then the name bytes without terminator. *)
Definition record_layout (s : ModelSpawn) : list byte :=
  le_split 4 (flags s) ++ le_split 2 (adtId s) ++ le_split 4 (ID s)
  ++ Vector3_bytes (iPos s) ++ Vector3_bytes (iRot s)
  ++ float_bytes (iScale s)
  ++ (if has_bound_flag (flags s)
      then Vector3_bytes (low (iBound s)) ++ Vector3_bytes (high (iBound s))
      else [])
  ++ le_split 4 (Z.of_nat (length (name s)))
  ++ name s.

(** A float that its 32-bit pattern determines. *)
Definition representable (f : float) : Prop :=
  0 <= float_bits f < 2 ^ 32 /\ float_of_bits (float_bits f) = f.

Definition representable3 (v : Vector3) : Prop :=
  representable (x v) /\ representable (y v) /\ representable (z v).

(** Every encoded field is a value of its C++ type. *)
Definition well_typed (s : ModelSpawn) : Prop :=
  0 <= flags s < 2 ^ 32 /\ 0 <= adtId s < 2 ^ 16 /\ 0 <= ID s < 2 ^ 32
  /\ representable3 (iPos s) /\ representable3 (iRot s)
  /\ representable (iScale s)
  /\ (has_bound_flag (flags s) = true ->
      representable3 (low (iBound s)) /\ representable3 (high (iBound s))).

(** The reads [readFromFile] makes before the name, in order, each as
    (element size, element count); [with_bound] tells whether the two
    corners of the bound are asked for. *)
Definition header_reads (with_bound : bool) : list (nat * nat) :=
  [(4, 1); (2, 1); (4, 1); (4, 3); (4, 3); (4, 1)]%nat
  ++ (if with_bound then [(4, 3); (4, 3)]%nat else [])
  ++ [(4, 1)]%nat.

(** The number of complete primitive fields those reads obtain from a
    stream of [len] bytes: each read takes the whole elements that are
    there, up to its count, and moves the stream past what it asked
    for. *)
Fixpoint elements_read (reads : list (nat * nat)) (len : nat) : nat :=
  match reads with
  | [] => 0
  | (size, count) :: rest =>
    (Nat.min count (len / size) + elements_read rest (len - count * size))%nat
  end.

(** A failed decode that left the record as it was. *)
Definition leaves_unmodified (rf : rfile) (s0 : ModelSpawn) : Prop :=
  exists rf', readFromFile rf s0 = (false, s0, rf').

(** The elements and the bytes a list of reads asks for. *)
Definition total_count (reads : list (nat * nat)) : nat :=
  fold_right (fun r acc => (snd r + acc)%nat) 0%nat reads.

Definition total_bytes (reads : list (nat * nat)) : nat :=
  fold_right (fun r acc => (snd r * fst r + acc)%nat) 0%nat reads.

(** The flags word at the head of a stream. *)
Definition stream_flags (rf : rfile) : Z := le_combine (firstn 4 rf).

(** The primitive-field count a stream yields. *)
Definition fields_delivered (rf : rfile) : nat :=
  elements_read (header_reads (has_bound_flag (stream_flags rf))) (length rf).

(** The bytes of a record before its name. *)
Definition header_bytes (with_bound : bool) : nat :=
  if with_bound then 66%nat else 42%nat.

(** What decoding the layout of [s] into [s0] gives: every field of [s],
    the bound of [s] too when its has-bound flag is set, and the bound
    [s0] had otherwise. *)
Definition decoded (s s0 : ModelSpawn) : ModelSpawn :=
  set_iBound s (if has_bound_flag (flags s) then iBound s else iBound s0).
End Serialization.
End Codec.

(** ** IEEE-754 binary32, the [float] of the compiled code *)

Module Binary32.
Import SpecFloat.
Local Open Scope Z_scope.

Definition prec : Z := 24.
Definition emax : Z := 128.

(** A binary32 value is its 32-bit pattern. *)
Definition binary32 : Type := Z.

Definition sign_bit : Z := 2147483648.       (* 0x80000000 *)
Definition inf_bits : Z := 2139095040.       (* 0x7F800000 *)
Definition nan_bits : Z := 2143289344.       (* 0x7FC00000 *)
Definition one_bits : Z := 1065353216.       (* 0x3F800000 *)

Definition to_spec (b : binary32) : spec_float :=
  let s := Z.testbit b 31 in
  let e := Z.land (Z.shiftr b 23) 255 in
  let m := Z.land b (2 ^ 23 - 1) in
  if e =? 0 then
    match m with
    | Zpos p => S754_finite s p (-149)
    | _ => S754_zero s
    end
  else if e =? 255 then
    if m =? 0 then S754_infinity s else S754_nan
  else
    match m + 2 ^ 23 with
    | Zpos p => S754_finite s p (e - 150)
    | _ => S754_nan
    end.

(** The bit pattern of a value.  Every NaN is given the one pattern
    [nan_bits]; the sign and payload that the hardware gives a NaN are
    not modelled. *)
Definition of_spec (f : spec_float) : binary32 :=
  match f with
  | S754_zero s => if s then sign_bit else 0
  | S754_infinity s => (if s then sign_bit else 0) + inf_bits
  | S754_nan => nan_bits
  | S754_finite s m e =>
    (if s then sign_bit else 0)
    + (if Zpos m <? 2 ^ 23 then Zpos m
       else (e + 150) * 2 ^ 23 + (Zpos m - 2 ^ 23))
  end.

Definition lift2 (op : spec_float -> spec_float -> spec_float)
    (a b : binary32) : binary32 :=
  of_spec (op (to_spec a) (to_spec b)).

#[export] Instance binary32_ops : FloatOps binary32 := {
  fzero := 0;
  fone := one_bits;
  finf := inf_bits;
  fopp := fun a => Z.lxor a sign_bit;
  fadd := lift2 (SFadd prec emax);
  fsub := lift2 (SFsub prec emax);
  fmul := lift2 (SFmul prec emax);
  fdiv := lift2 (SFdiv prec emax);
  feqb := fun a b => SFeqb (to_spec a) (to_spec b);
  fltb := fun a b => SFltb (to_spec a) (to_spec b);
  fleb := fun a b => SFleb (to_spec a) (to_spec b)
}.

#[export] Instance binary32_rep : FloatRep binary32 := {
  float_bits := fun a => a;
  float_of_bits := fun b => b
}.

(** The binary32 nearest to an integer. *)
Definition of_Z (n : Z) : binary32 :=
  of_spec (binary_normalize prec emax n 0 false).
End Binary32.

(** ** Exact arithmetic: the reals with the two infinities and NaN *)

Module Exact.
Local Open Scope R_scope.

Inductive xreal : Type :=
| Finite (r : R)
| PlusInf
| MinusInf
| NaN.

Definition xopp (a : xreal) : xreal :=
  match a with
  | Finite r => Finite (- r)
  | PlusInf => MinusInf
  | MinusInf => PlusInf
  | NaN => NaN
  end.

Definition xadd (a b : xreal) : xreal :=
  match a, b with
  | NaN, _ | _, NaN => NaN
  | Finite r, Finite s => Finite (r + s)
  | PlusInf, MinusInf | MinusInf, PlusInf => NaN
  | PlusInf, _ | _, PlusInf => PlusInf
  | MinusInf, _ | _, MinusInf => MinusInf
  end.

Definition xsub (a b : xreal) : xreal := xadd a (xopp b).

(** An infinity of the sign of [r]; NaN for zero. *)
Definition signed_inf (positive : bool) (r : R) : xreal :=
  if Req_dec_T r 0 then NaN
  else if Rlt_dec 0 r then (if positive then PlusInf else MinusInf)
       else (if positive then MinusInf else PlusInf).

Definition xmul (a b : xreal) : xreal :=
  match a, b with
  | NaN, _ | _, NaN => NaN
  | Finite r, Finite s => Finite (r * s)
  | PlusInf, Finite r | Finite r, PlusInf => signed_inf true r
  | MinusInf, Finite r | Finite r, MinusInf => signed_inf false r
  | PlusInf, PlusInf | MinusInf, MinusInf => PlusInf
  | PlusInf, MinusInf | MinusInf, PlusInf => MinusInf
  end.

(** Division; the only zero is the positive one. *)
Definition xdiv (a b : xreal) : xreal :=
  match a, b with
  | NaN, _ | _, NaN => NaN
  | Finite r, Finite s =>
    if Req_dec_T s 0 then signed_inf true r else Finite (r / s)
  | Finite _, _ => Finite 0
  | PlusInf, Finite s => if Rlt_dec s 0 then MinusInf else PlusInf
  | MinusInf, Finite s => if Rlt_dec s 0 then PlusInf else MinusInf
  | _, _ => NaN
  end.

Definition xeqb (a b : xreal) : bool :=
  match a, b with
  | Finite r, Finite s => if Req_dec_T r s then true else false
  | PlusInf, PlusInf | MinusInf, MinusInf => true
  | _, _ => false
  end.

Definition xltb (a b : xreal) : bool :=
  match a, b with
  | NaN, _ | _, NaN => false
  | Finite r, Finite s => if Rlt_dec r s then true else false
  | MinusInf, MinusInf | PlusInf, _ | _, MinusInf => false
  | MinusInf, _ | _, PlusInf => true
  end.

Definition xleb (a b : xreal) : bool :=
  match a, b with
  | NaN, _ | _, NaN => false
  | Finite r, Finite s => if Rle_dec r s then true else false
  | MinusInf, _ | _, PlusInf => true
  | PlusInf, _ | _, MinusInf => false
  end.

#[export] Instance xreal_ops : FloatOps xreal := {
  fzero := Finite 0;
  fone := Finite 1;
  finf := PlusInf;
  fopp := xopp;
  fadd := xadd;
  fsub := xsub;
  fmul := xmul;
  fdiv := xdiv;
  feqb := xeqb;
  fltb := xltb;
  fleb := xleb
}.

Definition xtrig (f : R -> R) (a : xreal) : xreal :=
  match a with
  | Finite r => Finite (f r)
  | _ => NaN
  end.

#[export] Instance xreal_trig : TrigOps xreal := {
  fpi := Finite PI;
  f180 := Finite 180;
  fcos := xtrig cos;
  fsin := xtrig sin
}.

Definition is_finite (a : xreal) : Prop :=
  match a with Finite _ => True | _ => False end.
End Exact.

(** ** Statements about the queries that need names of their own *)

Module Props.
Import G3D VMAP.

Section Statements.
Context {float : Type} {FO : FloatOps float}.
Local Open Scope float_scope.

Local Abbreviation Vector3 := (G3D.Vector3 float).
Local Abbreviation Matrix3 := (G3D.Matrix3 float).
Local Abbreviation ModelInstance := (VMAP.ModelInstance float).
Local Abbreviation WorldModel := (VMAP.WorldModel float).
Local Abbreviation GroupModel := (VMAP.GroupModel float).
Local Abbreviation AreaInfo := (VMAP.AreaInfo float).
Local Abbreviation LocationInfo := (VMAP.LocationInfo float).

(** What a query returned, if it returned. *)
Definition returned {A} (o : Outcome float A) : option A :=
  match o with
  | Returns a _ => Some a
  | NullDereference => None
  end.

(** A mesh that only tightens the distance it is handed: whatever it
    leaves in its distance argument is at most what it received.  The
    requirement is made for distances that compare to themselves, the
    others (NaN) are at most nothing. *)
Definition only_tightens (m : WorldModel) : Prop :=
  forall modRay d stop ign,
    fleb d d = true ->
    fleb (snd (wm_IntersectRay m modRay d stop ign)) d = true.

(** A mesh whose point probe leaves the recorded height and tile id of
    the [AreaInfo] alone. *)
Definition keeps_ground (m : WorldModel) : Prop :=
  forall pModel zDir info,
    let info' := snd (wm_IntersectPoint m pModel zDir info) in
    ai_ground_Z info' = ai_ground_Z info /\ ai_adtId info' = ai_adtId info.

(** A sub-group whose liquid query looks at the horizontal position
    only. *)
Definition horizontal_only (g : GroupModel) : Prop :=
  forall q q', x q = x q' -> y q = y q' ->
               gm_GetLiquidLevel g q = gm_GetLiquidLevel g q'.

(** Two instances with the same placement transform. *)
Definition same_transform (a b : ModelInstance) : Prop :=
  iPos a = iPos b /\ iInvRot a = iInvRot b
  /\ iInvScale a = iInvScale b /\ iScale a = iScale b.

(** The liquid answer as a function of the sub-group and the placement
    transform alone: the object-space point is
    [invRot * (p - pos) * invScale], the sub-group is asked at that
    point, and its surface height [zDist] above the same horizontal
    position goes back through [(v * invRot) * scale + pos]. *)
Definition liquid_answer (g : GroupModel) (pos : Vector3) (invRot : Matrix3)
    (invScale scale : float) (p : Vector3) (liqHeight : float)
  : bool * float :=
  let pModel := vscale (mulMV invRot (vsub p pos)) invScale in
  let r := gm_GetLiquidLevel g pModel in
  if fst r
  then (true,
        z (vadd (vscale (mulVM (mkVector3 (x pModel) (y pModel) (snd r))
                               invRot) scale) pos))
  else (false, liqHeight).

(** The same instance with another mesh reference. *)
Definition with_model (this : ModelInstance) (m : option WorldModel)
  : ModelInstance :=
  mkModelInstance (spawn this) (iInvRot this) (iInvScale this) m.

(** [is_inverse a b]: [b] is the two-sided matrix inverse of [a]. *)
Definition is_inverse (a b : Matrix3) : Prop :=
  mulMM a b = identity /\ mulMM b a = identity.

Section Rotation.
Context {TO : TrigOps float}.

(** The rotation the constructor inverts: the first (yaw) angle of
    [fromEulerAnglesZYX] is taken from [iRot.y], the second (pitch)
    from [iRot.x] and the third (roll) from [iRot.z]. *)
Definition rotation_of (sp : ModelSpawn float) : Matrix3 :=
  fromEulerAnglesZYX (radians (y (iRot sp))) (radians (x (iRot sp)))
                     (radians (z (iRot sp))).

(** The rotation with yaw = rotation.z, pitch = rotation.y and
    roll = rotation.x. *)
Definition rotation_zyx_of (sp : ModelSpawn float) : Matrix3 :=
  fromEulerAnglesZYX (radians (z (iRot sp))) (radians (y (iRot sp)))
                     (radians (x (iRot sp))).
End Rotation.

(** A mesh whose point probe finds ground below [p] at probe distance
    [zDist], whatever result it is handed. *)
Definition reports_ground (m : WorldModel) (this : ModelInstance)
    (p : Vector3) (zDist : float) : Prop :=
  forall info,
    fst (wm_IntersectPoint m (toModel this p) (zDirModel this) info)
    = (true, zDist).

(** Modelled from the spec: the index collaborator is not under src/; it
    hands one caller-owned result to the point lookup of each candidate
    instance in turn. *)
Fixpoint lookup_all (MOD_M2 : Z) (candidates : list ModelInstance)
    (p : Vector3) (info : AreaInfo) : Query float AreaInfo :=
  match candidates with
  | [] => ret info
  | c :: rest =>
    bind (intersectPoint MOD_M2 c p info)
         (fun info' => lookup_all MOD_M2 rest p info')
  end.

(** The queries of one instance no longer react to a missing mesh:
    the ray, point and location queries report no hit and leave their
    arguments and the call log as they were. *)
Definition degrades (intersectionTime : G3D.Ray float -> G3D.AABox float -> float)
    (MOD_M2 : Z) (this : ModelInstance) : Prop :=
  (forall pRay pMaxDist stop ign calls,
      intersectRay intersectionTime this pRay pMaxDist stop ign calls
      = Returns (false, pMaxDist) calls)
  /\ (forall p info calls,
         intersectPoint MOD_M2 this p info calls = Returns info calls)
  /\ (forall p info calls,
         GetLocationInfo MOD_M2 this p info calls
         = Returns (false, info) calls).

(** The ray query never leaving more in [pMaxDist] than it was given,
    for a mesh that only tightens. *)
Definition bound_never_increases
    (intersectionTime : G3D.Ray float -> G3D.AABox float -> float)
    (this : ModelInstance) (pRay : G3D.Ray float) (pMaxDist : float)
    (stop ign : bool) (calls : list (MeshCall float)) : Prop :=
  (forall m, iModel this = Some m -> only_tightens m) ->
  forall r,
    returned (intersectRay intersectionTime this pRay pMaxDist stop ign calls)
    = Some r ->
    fleb (snd r) pMaxDist = true.

(** The liquid query reporting no liquid and leaving [liqHeight]. *)
Definition liquid_misses (this : ModelInstance) (p : Vector3)
    (info : LocationInfo) (liqHeight : float) (calls : list (MeshCall float))
  : Prop :=
  returned (GetLiquidLevel this p info liqHeight calls)
  = Some (false, liqHeight).
End Statements.
End Props.

(** ** Concrete placements used in the examples *)

Module Fixtures.
Import G3D VMAP Props.

(** The values of [enum ModelFlags] in the header of this class:
    [MOD_M2 = 1], [MOD_HAS_BOUND = 1 << 2]. *)
Definition MOD_M2 : Z := 1.
Definition MOD_HAS_BOUND : Z := 4.

Section Generic.
Context {float : Type} {FO : FloatOps float}.

(** Stands in for [Ray::intersectionTime] in the examples: a ray that
    starts inside the box enters it at time zero, any other ray is
    taken to miss. *)
Definition inside_time (r : G3D.Ray float) (b : G3D.AABox float) : float :=
  if contains b (origin r) then fzero else finf.

(** A mesh with one surface: a ray hits it when the surface distance
    [surface] is within the bound, a point probe finds it at probe
    distance [zDist] and marks the result as found, and the location
    probe names the sub-group [group] with root id 7. *)
Definition surface_mesh (surface zDist : float)
    (group : option (GroupModel float)) : WorldModel float :=
  mkWorldModel
    (fun _ d _ _ => if fleb surface d then (true, surface) else (false, d))
    (fun _ _ info =>
       (true, zDist,
        mkAreaInfo true (ai_ground_Z info) (ai_flags info) (ai_adtId info)
                   7%Z 1%Z))
    (fun _ _ _ => (true, zDist, mkGroupLocationInfo group 7%Z)).

(** A sub-group with a liquid surface at object-space height [level]. *)
Definition pool (level : float) : GroupModel float :=
  mkGroupModel (fun _ => (true, level)).

Definition vec (a b c : float) : G3D.Vector3 float := mkVector3 a b c.

(** An unrotated instance at the origin with the given flags, tile id,
    scale, inverse scale, bound and mesh. *)
Definition placed (fl tile : Z) (scale invScale : float)
    (bound : G3D.AABox float) (model : option (WorldModel float))
  : ModelInstance float :=
  mkModelInstance
    (mkModelSpawn fl tile 1%Z (vec fzero fzero fzero) (vec fzero fzero fzero)
                  scale bound [])
    identity invScale model.

Definition no_area (ground : float) : AreaInfo float :=
  mkAreaInfo false ground 0%Z 0%Z 0%Z 0%Z.

Definition no_location (ground : float) : LocationInfo float :=
  mkLocationInfo None None ground (-1)%Z.
End Generic.

(** *** binary32 values *)
Module B32.
Import Binary32.

Definition f (n : Z) : binary32 := of_Z n.

(** The box from (-1000,-1000,-1000) to (1000,1000,1000). *)
Definition wide_box : G3D.AABox binary32 :=
  mkAABox (vec (f (-1000)) (f (-1000)) (f (-1000)))
          (vec (f 1000) (f 1000) (f 1000)).

(** A query point over the origin, at height 10. *)
Definition above : G3D.Vector3 binary32 := vec (f 0) (f 0) (f 10).

(** A point outside [wide_box]. *)
Definition far_away : G3D.Vector3 binary32 := vec (f 5000) (f 0) (f 0).

Definition ray_from (o : G3D.Vector3 binary32) : G3D.Ray binary32 :=
  mkRay o (vec (f 1) (f 0) (f 0)).

(** Ground 5 below the query point (world height 5), tile 11. *)
Definition lower : ModelInstance binary32 :=
  placed 0 11 (f 1) (f 1) wide_box (Some (surface_mesh (f 5) (f 5) None)).

(** Ground 2 below the query point (world height 8), tile 22. *)
Definition upper : ModelInstance binary32 :=
  placed 0 22 (f 1) (f 1) wide_box (Some (surface_mesh (f 2) (f 2) None)).

(** A simple prop (M2 bit set) with a mesh attached. *)
Definition prop_m2 : ModelInstance binary32 :=
  placed 1 33 (f 1) (f 1) wide_box (Some (surface_mesh (f 5) (f 5) None)).

(** An instance whose mesh is not loaded. *)
Definition unloaded : ModelInstance binary32 :=
  placed 0 44 (f 1) (f 1) wide_box None.

(** An instance with a pool 3 above its origin. *)
Definition flooded : ModelInstance binary32 :=
  placed 0 55 (f 1) (f 1) wide_box
         (Some (surface_mesh (f 5) (f 5) (Some (pool (f 3))))).

(** A result that names the pool, as [GetLocationInfo] on [flooded]
    leaves it. *)
Definition pool_info : LocationInfo binary32 :=
  mkLocationInfo (Some flooded) (Some (pool (f 3))) (f 5) 7.

(** Scale 3 with the inverse scale the constructor computes, [1.f / 3.f];
    its mesh has a surface exactly at the object-space image of the
    distance bound 100. *)
Definition third : binary32 := fdiv fone (f 3).
Definition tripled : ModelInstance binary32 :=
  placed 0 66 (f 3) third wide_box
         (Some (surface_mesh (fmul (f 100) third) (f 5) None)).

(** A placement record with a bound and a four-byte name. *)
Definition tree_spawn : ModelSpawn binary32 :=
  mkModelSpawn 4 11 4711 (vec (f 1) (f 2) (f 3)) (vec (f 0) (f 90) (f 0))
               (f 2) wide_box
               [Byte.x74; Byte.x72; Byte.x65; Byte.x65].

(** The same record without the has-bound flag. *)
Definition bush_spawn : ModelSpawn binary32 :=
  mkModelSpawn 1 11 4712 (vec (f 1) (f 2) (f 3)) (vec (f 0) (f 90) (f 0))
               (f 2) wide_box
               [Byte.x62; Byte.x75; Byte.x73; Byte.x68].

(** A record with every field zero. *)
Definition blank_spawn : ModelSpawn binary32 :=
  mkModelSpawn 0 0 0 (vec 0%Z 0%Z 0%Z) (vec 0%Z 0%Z 0%Z) 0%Z
               (mkAABox (vec 0%Z 0%Z 0%Z) (vec 0%Z 0%Z 0%Z)) [].

(** A stream that ends after one flags word. *)
Definition flags_only : Codec.rfile :=
  [Byte.x01; Byte.x00; Byte.x00; Byte.x00].
End B32.

(** *** exact values *)
Module X.
Import Exact.
Local Open Scope R_scope.

Definition wide_box : G3D.AABox xreal :=
  mkAABox (vec (Finite (-1000)) (Finite (-1000)) (Finite (-1000)))
          (vec (Finite 1000) (Finite 1000) (Finite 1000)).

Definition ray_out : G3D.Ray xreal :=
  mkRay (vec (Finite 0) (Finite 0) (Finite 0))
        (vec (Finite 1) (Finite 0) (Finite 0)).

(** Scale 2 with inverse scale [1 / 2]; the surface of the mesh is at
    object-space distance 4. *)
Definition doubled : ModelInstance xreal :=
  placed 0 77 (Finite 2) (fdiv fone (Finite 2)) wide_box
         (Some (surface_mesh (Finite 4) (Finite 1) None)).

(** A record turned by 90 degrees in its first Euler angle. *)
Definition turned : ModelSpawn xreal :=
  mkModelSpawn 0 1 1 (vec (Finite 0) (Finite 0) (Finite 0))
               (vec (Finite 90) (Finite 0) (Finite 0))
               (Finite 2) wide_box [].
End X.
End Fixtures.

(** ** Further statements about the encoding *)

Module CodecProps.
Import G3D VMAP Codec.

Section Statements.
Context {float : Type} {FR : FloatRep float}.
Variable MOD_HAS_BOUND : Z.
Local Open Scope Z_scope.

Local Abbreviation ModelSpawn := (VMAP.ModelSpawn float).

(** The bits of a float survive being loaded and stored again. *)
Definition bits_kept : Prop :=
  forall v, 0 <= v < 2 ^ 32 -> float_bits (float_of_bits v) = v.

(** The part of [readFromFile] that follows the field-count test: the
    name length is checked against 500, the name bytes are read and their
    count is compared with the length. *)
Definition read_name (spawn : ModelSpawn) (nameLen : Z) (rf : rfile)
  : bool * ModelSpawn * rfile :=
  if 500 <? nameLen then (false, spawn, rf)
  else
    let '(n, nameBuff, rf) := fread 1 (Z.to_nat nameLen) rf in
    let check := u32 (Z.of_nat n) in
    if negb (check =? nameLen) then (false, spawn, rf)
    else (true, set_name spawn (firstn (Z.to_nat nameLen) nameBuff), rf).

(** The name length a stream with a complete header declares: the last
    four bytes of the header. *)
Definition declared_name_length (rf : rfile) : Z :=
  let h := header_bytes (has_bound_flag MOD_HAS_BOUND (stream_flags rf)) in
  le_combine (firstn 4 (skipn (h - 4) rf)).

(** The bytes of a stream after its header. *)
Definition after_header (rf : rfile) : rfile :=
  skipn (header_bytes (has_bound_flag MOD_HAS_BOUND (stream_flags rf))) rf.
End Statements.
End CodecProps.

(** ** Further statements about the placement transform *)

Module TransformProps.
Import G3D VMAP.

Section Statements.
Context {float : Type} {FO : FloatOps float}.

(** [Matrix3::transpose], which the source names in its comment on the
    back-transform. *)
Definition transpose (m : G3D.Matrix3 float) : G3D.Matrix3 float :=
  mkMatrix3 (m00 m) (m10 m) (m20 m)
            (m01 m) (m11 m) (m21 m)
            (m02 m) (m12 m) (m22 m).

(** The back-transform of an object-space point to world space,
    [(v * iInvRot) * iScale + iPos], whose z the source takes. *)
Definition toWorld (this : ModelInstance float) (v : G3D.Vector3 float)
  : G3D.Vector3 float :=
  vadd (vscale (mulVM v (iInvRot this)) (iScale this)) (iPos this).

(** The object-space ray that [intersectRay] hands to the mesh:
    [Ray(iInvRot * (origin - iPos) * iInvScale, iInvRot * direction)]. *)
Definition modRay (this : ModelInstance float) (pRay : G3D.Ray float)
  : G3D.Ray float :=
  mkRay (toModel this (origin pRay))
        (mulMV (iInvRot this) (direction pRay)).

(** The point at parameter [t] of a ray, [origin + direction * t]. *)
Definition ray_point (r : G3D.Ray float) (t : float) : G3D.Vector3 float :=
  vadd (origin r) (vscale (direction r) t).
End Statements.
End TransformProps.

Module ExactProps.
Import G3D VMAP Exact.

(** Vectors and matrices without infinities and NaN. *)
Definition finite3 (v : G3D.Vector3 xreal) : Prop :=
  is_finite (x v) /\ is_finite (y v) /\ is_finite (z v).

Definition finiteM (m : G3D.Matrix3 xreal) : Prop :=
  is_finite (m00 m) /\ is_finite (m01 m) /\ is_finite (m02 m)
  /\ is_finite (m10 m) /\ is_finite (m11 m) /\ is_finite (m12 m)
  /\ is_finite (m20 m) /\ is_finite (m21 m) /\ is_finite (m22 m).

End ExactProps.

(** ** More example values *)

Module MoreFixtures.
Import G3D VMAP Fixtures.

(** *** binary32 values *)
Module B32.
Import Binary32 Fixtures.B32.

(** A header without the has-bound flag that declares a name of 501
    bytes, and two bytes after it. *)
Definition oversized_stream : Codec.rfile :=
  repeat Byte.x00 38 ++ [Byte.xf5; Byte.x01; Byte.x00; Byte.x00]
  ++ [Byte.x41; Byte.x42].

(** A header without the has-bound flag that declares a name of four
    bytes, and only two bytes after it. *)
Definition truncated_stream : Codec.rfile :=
  repeat Byte.x00 38 ++ [Byte.x04; Byte.x00; Byte.x00; Byte.x00]
  ++ [Byte.x41; Byte.x42].

(** A record whose name has 501 bytes. *)
Definition verbose_spawn : ModelSpawn binary32 :=
  mkModelSpawn 1 11 4713 (vec (f 1) (f 2) (f 3)) (vec (f 0) (f 90) (f 0))
               (f 2) wide_box (repeat Byte.x61 501).
End B32.

(** *** exact values *)
Module X.
Import Exact Fixtures.X.
Local Open Scope R_scope.

(** A result that names a pool at object-space height 3. *)
Definition pool_info : LocationInfo xreal :=
  mkLocationInfo None (Some (pool (Finite 3))) (Finite 0) 7.
End X.
End MoreFixtures.

(** ** The queries *)

Unset Implicit Arguments.

Module QueryFacts.
Import G3D VMAP Props.

Section Generic.
Context {float : Type} {FO : FloatOps float}.
Variable intersectionTime : G3D.Ray float -> G3D.AABox float -> float.
Variable MOD_M2 : Z.
Local Open Scope float_scope.

Local Abbreviation Vector3 := (G3D.Vector3 float).
Local Abbreviation ModelInstance := (VMAP.ModelInstance float).
Local Abbreviation WorldModel := (VMAP.WorldModel float).
Local Abbreviation AreaInfo := (VMAP.AreaInfo float).
Local Abbreviation LocationInfo := (VMAP.LocationInfo float).
Local Abbreviation intersectRay := (VMAP.intersectRay intersectionTime).
Local Abbreviation intersectPoint := (VMAP.intersectPoint MOD_M2).
Local Abbreviation GetLocationInfo := (VMAP.GetLocationInfo MOD_M2).

(** *** What each query does once its guards are passed *)

Lemma intersectRay_unloaded (this : ModelInstance) pRay pMaxDist stop ign calls :
  iModel this = None ->
  intersectRay this pRay pMaxDist stop ign calls
  = Returns (false, pMaxDist) calls.
Proof. intros H. unfold VMAP.intersectRay. now rewrite H. Qed.

Lemma intersectRay_delegates (this : ModelInstance) m pRay pMaxDist stop ign calls :
  iModel this = Some m ->
  feqb (intersectionTime pRay (iBound this)) finf = false ->
  let modRay := mkRay (toModel this (origin pRay))
                      (mulMV (iInvRot this) (direction pRay)) in
  let d := pMaxDist * iInvScale this in
  let r := wm_IntersectRay m modRay d stop ign in
  intersectRay this pRay pMaxDist stop ign calls
  = Returns (fst r, if fst r then snd r * iScale this else pMaxDist)
            (calls ++ [CallIntersectRay modRay d stop ign]).
Proof.
  intros Hm Ht. unfold VMAP.intersectRay, toModel. rewrite Hm, Ht.
  cbv [bind invoke ret].
  destruct (wm_IntersectRay m _ _ stop ign) as [[|] d']; reflexivity.
Qed.

Lemma intersectPoint_delegates (this : ModelInstance) m p info calls :
  iModel this = Some m ->
  Z.land (flags this) MOD_M2 = 0%Z ->
  contains (iBound this) p = true ->
  let r := wm_IntersectPoint m (toModel this p) (zDirModel this) info in
  let world_Z := worldHeight this (modelGround this p (snd (fst r))) in
  intersectPoint this p info calls
  = Returns (if fst (fst r)
             then if fltb (ai_ground_Z (snd r)) world_Z
                  then set_ground_adt (snd r) world_Z (adtId this)
                  else snd r
             else snd r)
            (calls ++ [CallIntersectPoint (toModel this p) (zDirModel this)]).
Proof.
  intros Hm Hf Hc.
  unfold VMAP.intersectPoint, worldHeight, modelGround, toModel, zDirModel.
  rewrite Hm, Hf, Hc. cbv [bind invoke ret negb Z.eqb].
  destruct (wm_IntersectPoint m _ _ info) as [[[|] zDist] info']; cbn [fst snd];
    [destruct (fltb _ _)|]; reflexivity.
Qed.

Lemma GetLocationInfo_delegates (this : ModelInstance) m p info calls :
  iModel this = Some m ->
  Z.land (flags this) MOD_M2 = 0%Z ->
  contains (iBound this) p = true ->
  let r := wm_GetLocationInfo m (toModel this p) (zDirModel this)
                              GroupLocationInfo_default in
  let world_Z := worldHeight this (modelGround this p (snd (fst r))) in
  GetLocationInfo this p info calls
  = Returns (if fst (fst r) && fltb (li_ground_Z info) world_Z
             then (true, mkLocationInfo (Some this) (gl_hitModel (snd r))
                                        world_Z (gl_rootId (snd r)))
             else (false, info))
            (calls ++ [CallGetLocationInfo (toModel this p) (zDirModel this)]).
Proof.
  intros Hm Hf Hc.
  unfold VMAP.GetLocationInfo, worldHeight, modelGround, toModel, zDirModel.
  rewrite Hm, Hf, Hc. cbv [bind invoke ret negb Z.eqb].
  destruct (wm_GetLocationInfo m _ _ _) as [[[|] zDist] gi]; cbn [fst snd andb];
    [destruct (fltb _ _)|]; reflexivity.
Qed.

Lemma GetLiquidLevel_answer (this : ModelInstance) p info liqHeight calls g :
  li_hitModel info = Some g ->
  GetLiquidLevel this p info liqHeight calls
  = Returns (liquid_answer g (iPos this) (iInvRot this) (iInvScale this)
                           (iScale this) p liqHeight)
            (calls ++ [CallGetLiquidLevel (toModel this p)]).
Proof.
  intros Hg. unfold GetLiquidLevel, liquid_answer, toModel. rewrite Hg.
  cbv [bind invoke ret].
  destruct (gm_GetLiquidLevel g _) as [[|] zDist]; reflexivity.
Qed.

Lemma GetLiquidLevel_null (this : ModelInstance) p info liqHeight calls :
  li_hitModel info = None ->
  GetLiquidLevel this p info liqHeight calls = NullDereference.
Proof. intros Hg. unfold GetLiquidLevel. now rewrite Hg. Qed.

(** *** Ray intersection *)

(** C5: a ray whose intersection time with the bounding box of the
    instance is infinite makes [intersectRay] return false at once: the
    distance bound is the one passed in and the call log is the one
    passed in, so the mesh collaborator was not invoked, whether a mesh
    is attached or not. *)
Theorem intersectRay_box_miss (this : ModelInstance) pRay pMaxDist stop ign calls :
  feqb (intersectionTime pRay (iBound this)) finf = true ->
  intersectRay this pRay pMaxDist stop ign calls
  = Returns (false, pMaxDist) calls.
Proof.
  intros Ht. unfold VMAP.intersectRay.
  destruct (iModel this); [rewrite Ht|]; reflexivity.
Qed.

(** *** Point and location lookup *)

(** C6: when the flags of the instance contain the simple-prop (M2) bit,
    or when the point is not contained in the bound of the instance,
    [intersectPoint] leaves the result as it was and [GetLocationInfo]
    returns false with the result as it was; in both the call log is
    untouched (the mesh collaborator is not consulted) and nothing of
    the placement transform enters the outcome. *)
Theorem point_queries_gated (this : ModelInstance) p :
  Z.land (flags this) MOD_M2 <> 0%Z \/ contains (iBound this) p = false ->
  (forall info calls, intersectPoint this p info calls = Returns info calls)
  /\ (forall info calls,
         GetLocationInfo this p info calls = Returns (false, info) calls).
Proof.
  intros H. unfold VMAP.intersectPoint, VMAP.GetLocationInfo.
  split; intros info calls; destruct (iModel this); try reflexivity;
    destruct H as [H | H].
  all: try (apply Z.eqb_neq in H; rewrite H; reflexivity).
  all: rewrite H; destruct (Z.land _ _ =? 0)%Z; reflexivity.
Qed.

Lemma intersectPoint_keeps_topmost (this : ModelInstance) m p zDist info calls :
  iModel this = Some m ->
  Z.land (flags this) MOD_M2 = 0%Z ->
  contains (iBound this) p = true ->
  keeps_ground m ->
  reports_ground m this p zDist ->
  let world_Z := worldHeight this (modelGround this p zDist) in
  exists info',
    intersectPoint this p info calls
    = Returns info'
              (calls ++ [CallIntersectPoint (toModel this p) (zDirModel this)])
    /\ ai_ground_Z info'
       = (if fltb (ai_ground_Z info) world_Z then world_Z
          else ai_ground_Z info)
    /\ ai_adtId info'
       = (if fltb (ai_ground_Z info) world_Z then adtId this
          else ai_adtId info).
Proof.
  intros Hm Hf Hc Hk Hr world_Z.
  rewrite (intersectPoint_delegates this m p info calls Hm Hf Hc).
  specialize (Hr info). specialize (Hk (toModel this p) (zDirModel this) info).
  cbv zeta in Hk.
  destruct (wm_IntersectPoint m _ _ info) as [[hit zd] info'].
  cbn [fst snd] in *. injection Hr as -> ->. destruct Hk as [Hg Ha].
  eexists; split; [reflexivity|]. fold world_Z. rewrite Hg.
  destruct (fltb (ai_ground_Z info) world_Z); cbn; auto.
Qed.

(** Two overlapping instances, the surface of [lower] below the surface
    of [upper]: whichever is asked first, the height and the tile id of
    [upper] are what the caller is left with. *)
Lemma topmost_kept (lower upper : ModelInstance) ml mu p zl zu info calls :
  iModel lower = Some ml -> iModel upper = Some mu ->
  Z.land (flags lower) MOD_M2 = 0%Z -> Z.land (flags upper) MOD_M2 = 0%Z ->
  contains (iBound lower) p = true -> contains (iBound upper) p = true ->
  keeps_ground ml -> keeps_ground mu ->
  reports_ground ml lower p zl -> reports_ground mu upper p zu ->
  let hl := worldHeight lower (modelGround lower p zl) in
  let hu := worldHeight upper (modelGround upper p zu) in
  fltb (ai_ground_Z info) hl = true -> fltb (ai_ground_Z info) hu = true ->
  fltb hl hu = true -> fltb hu hl = false ->
  forall order, order = [lower; upper] \/ order = [upper; lower] ->
  exists info' calls',
    lookup_all MOD_M2 order p info calls = Returns info' calls'
    /\ ai_ground_Z info' = hu /\ ai_adtId info' = adtId upper.
Proof.
  intros Hml Hmu Hfl Hfu Hcl Hcu Hkl Hku Hrl Hru hl hu H0l H0u Hlu Hul order Ho.
  destruct Ho as [-> | ->]; cbn [lookup_all]; unfold bind.
  - destruct (intersectPoint_keeps_topmost lower ml p zl info calls Hml Hfl Hcl Hkl Hrl)
      as (i1 & -> & Hg1 & Ha1).
    fold hl in Hg1, Ha1. rewrite H0l in Hg1, Ha1.
    destruct (intersectPoint_keeps_topmost upper mu p zu i1
                (calls ++ [CallIntersectPoint (toModel lower p) (zDirModel lower)])
                Hmu Hfu Hcu Hku Hru) as (i2 & -> & Hg2 & Ha2).
    fold hu in Hg2, Ha2. rewrite Hg1, Hlu in Hg2, Ha2.
    do 2 eexists; split; [reflexivity | auto].
  - destruct (intersectPoint_keeps_topmost upper mu p zu info calls Hmu Hfu Hcu Hku Hru)
      as (i1 & -> & Hg1 & Ha1).
    fold hu in Hg1, Ha1. rewrite H0u in Hg1, Ha1.
    destruct (intersectPoint_keeps_topmost lower ml p zl i1
                (calls ++ [CallIntersectPoint (toModel upper p) (zDirModel upper)])
                Hml Hfl Hcl Hkl Hrl) as (i2 & -> & Hg2 & Ha2).
    fold hl in Hg2, Ha2. rewrite Hg1, Hul in Hg2, Ha2.
    do 2 eexists; split; [reflexivity | ]. rewrite Hg2, Ha2. auto.
Qed.

(** C4: past the guards of a loaded instance, a ground intersection
    reported by the mesh at probe distance [zDist] gives the candidate
    height [world_Z = ((modelGround * iInvRot) * iScale + iPos).z], and
    only [recorded < world_Z] lets the instance write.  [intersectPoint]
    then stores [world_Z] and its own tile id in the result and
    otherwise stores nothing ([info'] is the result as the probe, which
    is handed it by reference, left it).  [GetLocationInfo] then stores
    the sub-group, the root id, [world_Z] and itself and returns true,
    and otherwise returns false with the result untouched although the
    mesh reported the intersection.  So of two overlapping instances
    whose probes leave height and tile id alone, the upper surface and
    its tile id are kept, in either order of asking. *)
Theorem height_gates_result (this : ModelInstance) m p :
  iModel this = Some m ->
  Z.land (flags this) MOD_M2 = 0%Z ->
  contains (iBound this) p = true ->
  (forall info calls zDist info',
      wm_IntersectPoint m (toModel this p) (zDirModel this) info
      = (true, zDist, info') ->
      let world_Z := worldHeight this (modelGround this p zDist) in
      intersectPoint this p info calls
      = Returns (if fltb (ai_ground_Z info') world_Z
                 then set_ground_adt info' world_Z (adtId this)
                 else info')
                (calls ++ [CallIntersectPoint (toModel this p) (zDirModel this)]))
  /\ (forall info calls zDist groupInfo,
         wm_GetLocationInfo m (toModel this p) (zDirModel this)
                            GroupLocationInfo_default
         = (true, zDist, groupInfo) ->
         let world_Z := worldHeight this (modelGround this p zDist) in
         GetLocationInfo this p info calls
         = Returns (if fltb (li_ground_Z info) world_Z
                    then (true,
                          mkLocationInfo (Some this) (gl_hitModel groupInfo)
                                         world_Z (gl_rootId groupInfo))
                    else (false, info))
                   (calls ++ [CallGetLocationInfo (toModel this p)
                                                  (zDirModel this)]))
  /\ (forall other mo zDist zo info calls,
         iModel other = Some mo ->
         Z.land (flags other) MOD_M2 = 0%Z ->
         contains (iBound other) p = true ->
         keeps_ground m -> keeps_ground mo ->
         reports_ground m this p zDist -> reports_ground mo other p zo ->
         let h := worldHeight this (modelGround this p zDist) in
         let ho := worldHeight other (modelGround other p zo) in
         fltb (ai_ground_Z info) h = true ->
         fltb (ai_ground_Z info) ho = true ->
         fltb h ho = true -> fltb ho h = false ->
         forall order, order = [this; other] \/ order = [other; this] ->
         exists info' calls',
           lookup_all MOD_M2 order p info calls = Returns info' calls'
           /\ ai_ground_Z info' = ho /\ ai_adtId info' = adtId other).
Proof.
  intros Hm Hf Hc. split; [|split].
  - intros info calls zDist info' Hr world_Z.
    rewrite (intersectPoint_delegates this m p info calls Hm Hf Hc), Hr.
    reflexivity.
  - intros info calls zDist gi Hr world_Z.
    rewrite (GetLocationInfo_delegates this m p info calls Hm Hf Hc), Hr.
    reflexivity.
  - intros other mo zDist zo info calls Hmo Hfo Hco Hk Hko Hr Hro h ho.
    intros H1 H2 H3 H4 order Ho.
    exact (topmost_kept this other m mo p zDist zo info calls Hm Hmo Hf Hfo Hc
                        Hco Hk Hko Hr Hro H1 H2 H3 H4 order Ho).
Qed.

(** *** Missing mesh *)

(** C7: with no mesh attached, [intersectRay] returns false and leaves
    the distance bound, [intersectPoint] leaves the result, and
    [GetLocationInfo] returns false and leaves the result, none of them
    calling anything.  [GetLiquidLevel] does not look at the mesh
    reference: it answers as it would with any mesh attached. *)
Theorem unloaded_degrades (this : ModelInstance) :
  iModel this = None ->
  degrades intersectionTime MOD_M2 this
  /\ (forall m p info liqHeight calls,
         GetLiquidLevel this p info liqHeight calls
         = GetLiquidLevel (with_model this m) p info liqHeight calls).
Proof.
  intros Hm. repeat split.
  - intros. now apply intersectRay_unloaded.
  - intros. unfold VMAP.intersectPoint. now rewrite Hm.
  - intros. unfold VMAP.GetLocationInfo. now rewrite Hm.
Qed.

(** *** Liquid level *)

(** C8: called with a result whose [hitModel] is the sub-group [g] that a
    successful [GetLocationInfo] stored, [GetLiquidLevel] recomputes
    [pModel = iInvRot * (p - iPos) * iInvScale] from the world-space
    point, asks [g] once at [pModel], returns false with [liqHeight]
    untouched when [g] reports no liquid, and otherwise returns true
    with the height of [(pModel.x, pModel.y, zDist)] taken back to world
    space by [worldHeight], the back-transform of the ground lookup.
    For a sub-group that looks at the horizontal position only, the
    answer is the same for all points with the same object-space x and
    y: the object-space z plays no part. *)
Theorem GetLiquidLevel_spec (this : ModelInstance) p info liqHeight calls g :
  li_hitModel info = Some g ->
  let pModel := toModel this p in
  let r := gm_GetLiquidLevel g pModel in
  GetLiquidLevel this p info liqHeight calls
  = Returns (if fst r
             then (true,
                   worldHeight this (mkVector3 (x pModel) (y pModel) (snd r)))
             else (false, liqHeight))
            (calls ++ [CallGetLiquidLevel pModel])
  /\ (horizontal_only g ->
      forall p', x (toModel this p') = x pModel ->
                 y (toModel this p') = y pModel ->
                 returned (GetLiquidLevel this p' info liqHeight calls)
                 = returned (GetLiquidLevel this p info liqHeight calls)).
Proof.
  intros Hg pModel r. split.
  - rewrite (GetLiquidLevel_answer this p info liqHeight calls g Hg). reflexivity.
  - intros Hh p' Hx Hy.
    rewrite (GetLiquidLevel_answer this p info liqHeight calls g Hg).
    rewrite (GetLiquidLevel_answer this p' info liqHeight calls g Hg).
    cbn [returned]. unfold liquid_answer. fold (toModel this p').
    fold (toModel this p). fold pModel.
    rewrite (Hh (toModel this p') pModel Hx Hy), Hx, Hy. reflexivity.
Qed.

(** C10: [GetLiquidLevel] tests nothing.  With [info.hitModel] null it
    dereferences null; with a sub-group there it always returns, after
    exactly one call, and its answer is [liquid_answer], a function of
    the sub-group and of the placement transform: the mesh reference,
    the flags (M2 bit included) and the bound of the instance do not
    enter, so two instances with the same transform answer alike. *)
Theorem GetLiquidLevel_unguarded (this : ModelInstance) p info liqHeight calls :
  GetLiquidLevel this p info liqHeight calls
  = match li_hitModel info with
    | Some g =>
      Returns (liquid_answer g (iPos this) (iInvRot this) (iInvScale this)
                             (iScale this) p liqHeight)
              (calls ++ [CallGetLiquidLevel (toModel this p)])
    | None => NullDereference
    end
  /\ (forall other : ModelInstance,
         same_transform this other ->
         GetLiquidLevel other p info liqHeight calls
         = GetLiquidLevel this p info liqHeight calls).
Proof.
  split.
  - destruct (li_hitModel info) as [g|] eqn:Hg.
    + now apply GetLiquidLevel_answer.
    + now apply GetLiquidLevel_null.
  - intros other (Hp & Hr & Hi & Hs).
    unfold GetLiquidLevel. now rewrite Hp, Hr, Hi, Hs.
Qed.
End Generic.
End QueryFacts.

(** ** Encoding and decoding *)

Module CodecFacts.
Import G3D VMAP Codec.

Section Generic.
Context {float : Type} {FR : FloatRep float}.
Variable MOD_HAS_BOUND : Z.
Local Open Scope Z_scope.

Local Abbreviation Vector3 := (G3D.Vector3 float).
Local Abbreviation ModelSpawn := (VMAP.ModelSpawn float).
Local Abbreviation readFromFile := (Codec.readFromFile MOD_HAS_BOUND).
Local Abbreviation writeToFile := (Codec.writeToFile MOD_HAS_BOUND).
Local Abbreviation record_layout := (Codec.record_layout MOD_HAS_BOUND).
Local Abbreviation has_bound_flag := (Codec.has_bound_flag MOD_HAS_BOUND).
Local Abbreviation decoded := (Codec.decoded MOD_HAS_BOUND).
Local Abbreviation fields_delivered := (Codec.fields_delivered MOD_HAS_BOUND).

(** *** The stream primitives *)

Lemma fread_exact (size count : nat) (a rest : list byte) :
  size <> 0%nat -> length a = (count * size)%nat ->
  fread size count (a ++ rest) = (count, a, rest).
Proof.
  intros Hs Ha. unfold fread.
  assert (Hn : Nat.min count (length (a ++ rest) / size) = count).
  { apply Nat.min_l. rewrite length_app, Ha.
    rewrite Nat.div_add_l by exact Hs. lia. }
  rewrite Hn, <- Ha.
  rewrite firstn_app, firstn_all, Nat.sub_diag, app_nil_r.
  rewrite skipn_app, skipn_all, Nat.sub_diag. reflexivity.
Qed.

Lemma fwrite_fits (size count : nat) (data : list byte) (wf : wfile) :
  size <> 0%nat -> length data = (count * size)%nat ->
  (count * size <= wroom wf)%nat ->
  fwrite size count data wf
  = (count, mkWfile (wbytes wf ++ data) (wroom wf - count * size)).
Proof.
  intros Hs Hd Hr. unfold fwrite.
  assert (Hn : Nat.min count (wroom wf / size) = count).
  { apply Nat.min_l. apply Nat.div_le_lower_bound; lia. }
  rewrite Hn, <- Hd, firstn_all. reflexivity.
Qed.

Lemma float_bytes_length (f : float) : length (float_bytes f) = 4%nat.
Proof. apply length_le_split. Qed.

Lemma Vector3_bytes_length (v : Vector3) : length (Vector3_bytes v) = 12%nat.
Proof.
  unfold Vector3_bytes. rewrite !length_app, !float_bytes_length. reflexivity.
Qed.

Lemma le_combine_split_u32 (v : Z) :
  0 <= v < 2 ^ 32 -> le_combine (le_split 4 v) = v.
Proof. intros H. rewrite le_combine_split. apply Z.mod_small. exact H. Qed.

Lemma le_combine_split_u16 (v : Z) :
  0 <= v < 2 ^ 16 -> le_combine (le_split 2 v) = v.
Proof. intros H. rewrite le_combine_split. apply Z.mod_small. exact H. Qed.

Lemma float_of_bytes (f : float) :
  representable f -> float_of_bits (le_combine (float_bytes f)) = f.
Proof.
  intros [Hr He]. unfold float_bytes.
  rewrite le_combine_split_u32 by exact Hr. exact He.
Qed.

Lemma firstn_app_exact (n : nat) (a b : list byte) :
  length a = n -> firstn n (a ++ b) = a.
Proof.
  intros <-. now rewrite firstn_app, firstn_all, Nat.sub_diag, app_nil_r.
Qed.

Lemma skipn_app_exact (n : nat) (a b : list byte) :
  length a = n -> skipn n (a ++ b) = b.
Proof. intros <-. now rewrite skipn_app, skipn_all, Nat.sub_diag. Qed.

(** A destination that is overwritten in full holds what was copied. *)
Lemma overwritten_whole (bs old : list byte) :
  (length old <= length bs)%nat -> overwritten bs old = bs.
Proof.
  intros H. unfold overwritten. rewrite skipn_all2 by exact H.
  apply app_nil_r.
Qed.

Lemma load_uint_whole (size : nat) (c : list byte) (old : Z) :
  length c = size -> size <> 0%nat -> load_uint size c old = le_combine c.
Proof.
  intros Hc Hs. unfold load_uint.
  destruct c as [|b c]; [cbn [length] in Hc; congruence | ].
  rewrite overwritten_whole; [reflexivity | ].
  rewrite length_le_split. lia.
Qed.

Lemma load_float_at (k : nat) (c : list byte) (old : float) :
  (4 * k + 4 <= length c)%nat ->
  load_float k c old
  = float_of_bits (le_combine (firstn 4 (skipn (4 * k) c))).
Proof.
  intros H. unfold load_float.
  assert (Hl : length (firstn 4 (skipn (4 * k) c)) = 4%nat)
    by (rewrite length_firstn, length_skipn; lia).
  destruct (firstn 4 (skipn (4 * k) c)) as [|b t]; [discriminate Hl | ].
  rewrite overwritten_whole; [reflexivity | ].
  rewrite float_bytes_length. lia.
Qed.

Lemma load_float_alone (f old : float) :
  representable f -> load_float 0 (float_bytes f) old = f.
Proof.
  intros H. rewrite load_float_at by (rewrite float_bytes_length; lia).
  change (4 * 0)%nat with 0%nat. cbn [skipn].
  rewrite <- (app_nil_r (float_bytes f)).
  rewrite firstn_app_exact by apply float_bytes_length.
  now apply float_of_bytes.
Qed.

Lemma load_Vector3_bytes (v old : Vector3) :
  representable3 v -> load_Vector3 (Vector3_bytes v) old = v.
Proof.
  intros (Hx & Hy & Hz).
  unfold load_Vector3.
  rewrite !load_float_at by (rewrite Vector3_bytes_length; lia).
  destruct v as [vx vy vz]. cbn [x y z] in *.
  unfold Vector3_bytes. cbn [x y z].
  f_equal.
  - change (4 * 0)%nat with 0%nat. cbn [skipn].
    rewrite firstn_app_exact by apply float_bytes_length.
    now apply float_of_bytes.
  - change (4 * 1)%nat with 4%nat.
    rewrite skipn_app_exact by apply float_bytes_length.
    rewrite firstn_app_exact by apply float_bytes_length.
    now apply float_of_bytes.
  - change (4 * 2)%nat with (4 + 4)%nat.
    rewrite <- skipn_skipn.
    rewrite skipn_app_exact by apply float_bytes_length.
    rewrite skipn_app_exact by apply float_bytes_length.
    rewrite <- (app_nil_r (float_bytes vz)).
    rewrite firstn_app_exact by apply float_bytes_length.
    now apply float_of_bytes.
Qed.

(** *** Writing, then reading *)

Lemma record_layout_length (s : ModelSpawn) :
  length (record_layout s)
  = (header_bytes (has_bound_flag (flags s)) + length (name s))%nat.
Proof.
  unfold Codec.record_layout.
  rewrite !length_app, !length_le_split, !Vector3_bytes_length,
    float_bytes_length.
  destruct (has_bound_flag (flags s)); cbn [header_bytes].
  - rewrite length_app, !Vector3_bytes_length. lia.
  - cbn [length]. lia.
Qed.

Lemma name_length_u32 (s : ModelSpawn) :
  (length (name s) <= 500)%nat ->
  u32 (Z.of_nat (length (name s))) = Z.of_nat (length (name s)).
Proof. intros H. unfold u32. apply Z.mod_small. lia. Qed.

Local Ltac length_side :=
  first [ discriminate
        | apply length_le_split
        | apply Vector3_bytes_length
        | apply float_bytes_length
        | (cbn [wroom]; lia) ].

Lemma writeToFile_layout (s : ModelSpawn) (wf : wfile) :
  (length (name s) <= 500)%nat ->
  (length (record_layout s) <= wroom wf)%nat ->
  writeToFile wf s
  = (true, mkWfile (wbytes wf ++ record_layout s)
                   (wroom wf - length (record_layout s))).
Proof.
  intros Hname Hroom. rewrite (record_layout_length s) in *.
  unfold Codec.writeToFile, Codec.record_layout.
  rewrite (name_length_u32 s Hname), Nat2Z.id.
  destruct (has_bound_flag (flags s)) eqn:Hb; cbn [header_bytes] in *;
    repeat (rewrite fwrite_fits by length_side; cbv beta iota zeta).
  all: cbn [wbytes wroom].
  all: match goal with
       | |- context [negb (?c =? ?e)] =>
         let v := eval vm_compute in (negb (c =? e)) in
         change (negb (c =? e)) with v
       end; cbv iota.
  all: rewrite (name_length_u32 s Hname), Z.eqb_refl.
  all: f_equal; f_equal; [ rewrite <- !app_assoc; reflexivity | lia ].
Qed.

Lemma load_uint_u32 (v old : Z) :
  0 <= v < 2 ^ 32 -> load_uint 4 (le_split 4 v) old = v.
Proof.
  intros H. rewrite load_uint_whole by (try apply length_le_split; discriminate).
  now apply le_combine_split_u32.
Qed.

Lemma load_uint_u16 (v old : Z) :
  0 <= v < 2 ^ 16 -> load_uint 2 (le_split 2 v) old = v.
Proof.
  intros H. rewrite load_uint_whole by (try apply length_le_split; discriminate).
  now apply le_combine_split_u16.
Qed.

Local Ltac read_step :=
  rewrite fread_exact by length_side; cbv beta iota zeta.

Local Ltac project_fields :=
  cbn [flags adtId ID iPos iRot iScale iBound name
       set_flags set_adtId set_ID set_iPos set_iRot set_iScale set_iBound
       set_name].

Local Ltac decide_check :=
  match goal with
  | |- context [negb (?c =? ?e)] =>
    let v := eval vm_compute in (negb (c =? e)) in
    change (negb (c =? e)) with v
  end; cbv iota.

Lemma readFromFile_layout (s s0 : ModelSpawn) (rest : list byte) :
  well_typed MOD_HAS_BOUND s -> (length (name s) <= 500)%nat ->
  readFromFile (record_layout s ++ rest) s0 = (true, decoded s s0, rest).
Proof.
  intros (Hf & Ha & Hi & Hp & Hr & Hs & Hbound) Hname.
  assert (Hn : 0 <= Z.of_nat (length (name s)) < 2 ^ 32) by lia.
  unfold Codec.readFromFile, Codec.record_layout, Codec.decoded.
  rewrite <- !app_assoc.
  read_step. rewrite (load_uint_u32 _ _ Hf).
  change (add32 0 1 =? 0) with false. cbv iota.
  do 5 read_step. project_fields.
  rewrite (load_uint_u16 _ _ Ha), (load_uint_u32 _ _ Hi),
    (load_Vector3_bytes _ _ Hp), (load_Vector3_bytes _ _ Hr),
    (load_float_alone _ _ Hs).
  destruct (has_bound_flag (flags s)) eqn:Hb.
  - destruct (Hbound eq_refl) as [Hlo Hhi].
    rewrite <- !app_assoc. do 3 read_step.
    rewrite (load_Vector3_bytes _ _ Hlo), (load_Vector3_bytes _ _ Hhi),
      (load_uint_u32 _ _ Hn).
    decide_check.
    replace (500 <? Z.of_nat (length (name s))) with false
      by (symmetry; apply Z.ltb_ge; lia).
    rewrite Nat2Z.id.
    rewrite fread_exact by first [discriminate | lia]. cbv beta iota zeta.
    rewrite (name_length_u32 s Hname), Z.eqb_refl, firstn_all.
    cbn [negb]. project_fields.
    destruct s as [fl ad id ps rt sc [lo hi] nm]. reflexivity.
  - cbn [app]. read_step. rewrite (load_uint_u32 _ _ Hn).
    decide_check.
    replace (500 <? Z.of_nat (length (name s))) with false
      by (symmetry; apply Z.ltb_ge; lia).
    rewrite Nat2Z.id.
    rewrite fread_exact by first [discriminate | lia]. cbv beta iota zeta.
    rewrite (name_length_u32 s Hname), Z.eqb_refl, firstn_all.
    cbn [negb]. project_fields.
    destruct s as [fl ad id ps rt sc bd nm]. reflexivity.
Qed.

(** *** Short streams *)

Lemma add32_of_nat (a n : nat) :
  (a + n <= 1000)%nat -> add32 (Z.of_nat a) n = Z.of_nat (a + n).
Proof.
  intros H. unfold add32, u32. rewrite <- Nat2Z.inj_add.
  apply Z.mod_small. lia.
Qed.

Lemma elements_read_le (reads : list (nat * nat)) :
  forall len, (elements_read reads len <= total_count reads)%nat.
Proof.
  induction reads as [|[size count] reads IH]; intros len;
    cbn [elements_read total_count fold_right fst snd].
  - lia.
  - specialize (IH (len - count * size)%nat). fold (total_count reads). lia.
Qed.

Lemma elements_read_full (reads : list (nat * nat)) :
  Forall (fun r => fst r <> 0%nat) reads ->
  forall len,
    elements_read reads len = total_count reads
    <-> (total_bytes reads <= len)%nat.
Proof.
  induction 1 as [|[size count] reads Hs _ IH]; intros len;
    cbn [elements_read total_count total_bytes fold_right fst snd] in *.
  - split; intros; lia.
  - fold (total_count reads). fold (total_bytes reads).
    specialize (IH (len - count * size)%nat).
    pose proof (elements_read_le reads (len - count * size)) as Hle.
    split.
    + intros Hsum.
      assert (Hc : (count <= len / size)%nat) by lia.
      assert (Hfit : (count * size <= len)%nat).
      { pose proof (Nat.Div0.mul_div_le len size) as Hd. nia. }
      assert (He : elements_read reads (len - count * size)
                   = total_count reads) by lia.
      apply IH in He. lia.
    + intros Hfit.
      assert (Hc : (count <= len / size)%nat).
      { apply Nat.div_le_lower_bound; [exact Hs | lia]. }
      assert (He : elements_read reads (len - count * size)
                   = total_count reads) by (apply IH; lia).
      lia.
Qed.

Lemma header_reads_sizes (b : bool) :
  Forall (fun r => fst r <> 0%nat) (header_reads b).
Proof. destruct b; repeat constructor; discriminate. Qed.

(** A stream delivers the expected number of fields exactly when it is
    at least as long as the header that its flags announce. *)
Lemma fields_delivered_full (rf : rfile) :
  let b := has_bound_flag (stream_flags rf) in
  Z.of_nat (fields_delivered rf) = expected_fields b
  <-> (header_bytes b <= length rf)%nat.
Proof.
  intros b. unfold Codec.fields_delivered. fold b.
  pose proof (elements_read_full (header_reads b) (header_reads_sizes b)
                                 (length rf)) as Hfull.
  destruct b; cbn [expected_fields header_bytes] in *;
    change (total_count (header_reads true)) with 17%nat in Hfull;
    change (total_count (header_reads false)) with 11%nat in Hfull;
    change (total_bytes (header_reads true)) with 66%nat in Hfull;
    change (total_bytes (header_reads false)) with 42%nat in Hfull;
    rewrite <- Hfull; lia.
Qed.

Lemma short_stream_length (rf : rfile) :
  Z.of_nat (fields_delivered rf)
  <> expected_fields (has_bound_flag (stream_flags rf)) ->
  (length rf < header_bytes (has_bound_flag (stream_flags rf)))%nat.
Proof.
  intros Hcount.
  pose proof (fields_delivered_full rf) as Hfull. cbv zeta in Hfull.
  destruct (Nat.lt_ge_cases (length rf)
              (header_bytes (has_bound_flag (stream_flags rf))))
    as [Hlt | Hge]; [exact Hlt | ].
  apply Hfull in Hge. contradiction.
Qed.

Lemma readFromFile_short (rf : rfile) (s0 : ModelSpawn) :
  Z.of_nat (fields_delivered rf)
  <> expected_fields (has_bound_flag (stream_flags rf)) ->
  exists s',
    readFromFile rf s0 = (false, s', [])
    /\ name s' = name s0
    /\ (rf = [] -> s' = s0)
    /\ ((0 < length rf < 4)%nat ->
        s' = set_flags s0
               (le_combine (overwritten rf (le_split 4 (flags s0)))))
    /\ ((4 <= length rf)%nat -> flags s' = stream_flags rf).
Proof.
  intros Hcount. pose proof (short_stream_length rf Hcount) as Hshort.
  unfold Codec.readFromFile, fread.
  cbv beta iota zeta.
  change 0 with (Z.of_nat 0) at 1.
  rewrite add32_of_nat by lia.
  destruct (Z.of_nat (0 + Nat.min 1 (length rf / 4)) =? 0) eqn:E1.
  { apply Z.eqb_eq in E1.
    assert (Hlt : (length rf < 4)%nat).
    { destruct (Nat.lt_ge_cases (length rf) 4) as [Hlt | Hge];
        [exact Hlt | ].
      assert (1 <= length rf / 4)%nat
        by (apply Nat.div_le_lower_bound; lia).
      lia. }
    rewrite (firstn_all2 (n := 1 * 4) rf) by (cbn; lia).
    rewrite (skipn_all2 (n := 1 * 4) rf) by (cbn; lia).
    eexists. split; [reflexivity | ].
    split; [project_fields; reflexivity | ].
    split; [intros ->; destruct s0; reflexivity | ].
    split; [ | intros Hge; lia].
    intros [Hpos _]. destruct rf as [|b rf];
      [cbn [length] in Hpos; lia | reflexivity]. }
  apply Z.eqb_neq in E1.
  assert (Hn1 : Nat.min 1 (length rf / 4) = 1%nat) by lia.
  assert (Hlong : (4 <= length rf)%nat).
  { destruct (Nat.lt_ge_cases (length rf) 4) as [Hlt | Hge];
      [ | exact Hge].
    rewrite (Nat.div_small _ _ Hlt) in Hn1. discriminate Hn1. }
  assert (Hflags : load_uint 4 (firstn (1 * 4) rf) (flags s0)
                   = stream_flags rf).
  { apply load_uint_whole; [ | discriminate].
    rewrite length_firstn. change (1 * 4)%nat with 4%nat. lia. }
  rewrite !Hn1. project_fields. rewrite !Hflags.
  unfold Codec.fields_delivered in Hcount.
  change (add32 0 1) with (Z.of_nat 1).
  destruct (has_bound_flag (stream_flags rf)) eqn:Hb;
    cbv beta iota zeta; repeat (rewrite add32_of_nat by lia);
    rewrite !length_skipn;
    cbn [elements_read header_reads app] in Hcount;
    cbn [header_bytes] in Hshort.
  all: match goal with
       | |- context [negb (?c =? ?e)] => destruct (c =? e) eqn:E2
       end; cbn [negb].
  all: try (exfalso; apply Hcount; apply Z.eqb_eq in E2; rewrite <- E2;
            rewrite Hn1; f_equal; lia).
  all: eexists; split;
    [ apply f_equal2; [reflexivity | ];
      rewrite !skipn_skipn; apply skipn_all2; cbn; lia
    | ].
  all: split; [project_fields; reflexivity | ].
  all: split; [intros ->; cbn [length] in Hlong; lia | ].
  all: split; [intros Hlt; lia | ].
  all: intros _; project_fields; exact Hflags || reflexivity.
Qed.

(** *** The two contracts *)

(** C2: a record whose fields are values of their C++ types and whose
    name has at most 500 bytes, written by [writeToFile] to a stream
    with room for it: the write succeeds and appends exactly the layout
    of the record; [readFromFile] on those bytes, whatever follows them,
    succeeds, consumes exactly them, and gives back flags, tile id, id,
    position, rotation, scale and name of the record; the bound is the
    one of the record when the has-bound flag is set, and the one the
    destination already had when it is not. *)
Theorem write_then_read (s s0 : ModelSpawn) (wf : wfile) (rest : list byte) :
  well_typed MOD_HAS_BOUND s ->
  (length (name s) <= 500)%nat ->
  (length (record_layout s) <= wroom wf)%nat ->
  exists wf' s',
    writeToFile wf s = (true, wf')
    /\ wbytes wf' = wbytes wf ++ record_layout s
    /\ readFromFile (record_layout s ++ rest) s0 = (true, s', rest)
    /\ flags s' = flags s /\ adtId s' = adtId s /\ ID s' = ID s
    /\ iPos s' = iPos s /\ iRot s' = iRot s /\ iScale s' = iScale s
    /\ name s' = name s
    /\ iBound s' = (if has_bound_flag (flags s) then iBound s else iBound s0).
Proof.
  intros Hwt Hname Hroom.
  exists (mkWfile (wbytes wf ++ record_layout s)
                  (wroom wf - length (record_layout s))).
  exists (decoded s s0).
  split; [now apply writeToFile_layout | ].
  split; [reflexivity | ].
  split; [now apply readFromFile_layout | ].
  unfold Codec.decoded. cbn [flags adtId ID iPos iRot iScale iBound name
                              set_iBound].
  repeat split; reflexivity.
Qed.

(** C9: a stream that yields a primitive-field count other than the 11
    or 17 that its flags call for is shorter than the header of its
    record; [readFromFile] returns false on it, leaves the stream at its
    end and never writes the name.  The record is not left as it was in
    general: an empty stream leaves it unmodified; a stream of one to
    three bytes replaces the low-order bytes of the flags by these bytes
    and changes nothing else; a stream of four bytes or more sets the
    flags to the flags word of the stream. *)
Theorem short_stream_rejected (rf : rfile) (s0 : ModelSpawn) :
  Z.of_nat (fields_delivered rf)
  <> expected_fields (has_bound_flag (stream_flags rf)) ->
  (length rf < header_bytes (has_bound_flag (stream_flags rf)))%nat
  /\ exists s',
      readFromFile rf s0 = (false, s', [])
      /\ name s' = name s0
      /\ (rf = [] -> s' = s0)
      /\ ((0 < length rf < 4)%nat ->
          s' = set_flags s0
                 (le_combine (overwritten rf (le_split 4 (flags s0)))))
      /\ ((4 <= length rf)%nat -> flags s' = stream_flags rf).
Proof.
  intros Hcount. split.
  - now apply short_stream_length.
  - now apply readFromFile_short.
Qed.
End Generic.
End CodecFacts.

(** ** Exact arithmetic: construction and the distance bound *)

Module ExactFacts.
Import G3D VMAP Props Exact.
Local Open Scope R_scope.

Local Abbreviation ModelSpawn := (VMAP.ModelSpawn xreal).
Local Abbreviation ModelInstance := (VMAP.ModelInstance xreal).
Local Abbreviation WorldModel := (VMAP.WorldModel xreal).

(** Evaluation of the arithmetic on finite values. *)
Local Ltac xeval :=
  cbv [fromEulerAnglesZYX inverse determinant mulMM mulMV mulVM vadd vsub
       vscale identity is_inverse
       m00 m01 m02 m10 m11 m12 m20 m21 m22 x y z
       fzero fone finf fopp fadd fsub fmul fdiv feqb fltb fleb
       fpi f180 fcos fsin xreal_ops xreal_trig
       xopp xadd xsub xmul xdiv xtrig].

Lemma xdiv_one (s : R) : s <> 0 -> fdiv fone (Finite s) = Finite (1 / s).
Proof.
  intros Hs. xeval. destruct (Req_dec_T s 0); [contradiction | reflexivity].
Qed.

Lemma signed_inf_pos (positive : bool) (r : R) :
  0 < r -> signed_inf positive r = if positive then PlusInf else MinusInf.
Proof.
  intros Hr. unfold signed_inf.
  destruct (Req_dec_T r 0); [lra | ]. destruct (Rlt_dec 0 r); [reflexivity | lra].
Qed.

Lemma xleb_finite (a b : R) : xleb (Finite a) (Finite b) = true <-> a <= b.
Proof.
  unfold xleb. destruct (Rle_dec a b); split; intros; easy.
Qed.

Lemma radians_finite (a : R) : radians (Finite a) = Finite (PI * a / 180).
Proof.
  unfold radians. xeval.
  destruct (Req_dec_T 180 0) as [H | _]; [lra | reflexivity].
Qed.

(** The cofactor inverse of a finite matrix with a determinant other than
    zero is its inverse on both sides. *)
Lemma inverse_finite (a b c d e f g h i det : R) :
  let m := mkMatrix3 (Finite a) (Finite b) (Finite c)
                     (Finite d) (Finite e) (Finite f)
                     (Finite g) (Finite h) (Finite i) in
  determinant m = Finite det -> det <> 0 ->
  is_inverse m (inverse m).
Proof.
  cbv zeta. xeval. intros Hdet Hnz. injection Hdet as Hdet.
  rewrite Hdet.
  destruct (Req_dec_T det 0) as [H0 | _]; [contradiction | ].
  split; repeat f_equal; subst det; field; exact Hnz.
Qed.

Lemma rotation_determinant (a b c : R) :
  determinant (fromEulerAnglesZYX (Finite a) (Finite b) (Finite c)) = Finite 1.
Proof.
  xeval. f_equal.
  pose proof (sin2_cos2 a) as Ha. pose proof (sin2_cos2 b) as Hb.
  pose proof (sin2_cos2 c) as Hc. unfold Rsqr in *.
  generalize dependent (cos a). generalize dependent (sin a).
  generalize dependent (cos b). generalize dependent (sin b).
  generalize dependent (cos c). generalize dependent (sin c).
  intros sc cc Hc sb cb Hb sa ca Ha.
  transitivity ((sa * sa + ca * ca) * (sb * sb + cb * cb) * (sc * sc + cc * cc)).
  - ring.
  - rewrite Ha, Hb, Hc. ring.
Qed.

Lemma rotation_finite (a b c : R) :
  exists m00 m01 m02 m10 m11 m12 m20 m21 m22 : R,
    fromEulerAnglesZYX (Finite a) (Finite b) (Finite c)
    = mkMatrix3 (Finite m00) (Finite m01) (Finite m02)
                (Finite m10) (Finite m11) (Finite m12)
                (Finite m20) (Finite m21) (Finite m22).
Proof. xeval. do 9 eexists. reflexivity. Qed.

(** C1: for a placement record whose three Euler angles are finite, the
    constructor sets [iInvScale] to [1 / iScale], and sets [iInvRot] to
    the matrix inverse, on both sides, of the rotation composed in ZYX
    order whose yaw is [iRot.y], whose pitch is [iRot.x] and whose roll is
    [iRot.z], each taken to radians as [pi * angle / 180]. *)
Theorem constructor_inverts (sp : ModelSpawn) (model : option WorldModel) :
  is_finite (x (iRot sp)) -> is_finite (y (iRot sp)) ->
  is_finite (z (iRot sp)) ->
  let this := ModelInstance_new sp model in
  iInvScale this = fdiv fone (iScale sp)
  /\ (forall s, iScale sp = Finite s -> s <> 0 ->
                iInvScale this = Finite (1 / s))
  /\ rotation_of sp
     = fromEulerAnglesZYX (fdiv (fmul fpi (y (iRot sp))) f180)
                          (fdiv (fmul fpi (x (iRot sp))) f180)
                          (fdiv (fmul fpi (z (iRot sp))) f180)
  /\ is_inverse (rotation_of sp) (iInvRot this).
Proof.
  intros Hx Hy Hz this. split; [reflexivity | ]. split.
  { intros s Hs Hnz. unfold this, ModelInstance_new. cbn [iInvScale].
    rewrite Hs. now apply xdiv_one. }
  split; [reflexivity | ].
  unfold this, ModelInstance_new, rotation_of. cbn [iInvRot].
  destruct (iRot sp) as [[rx| | |] [ry| | |] [rz| | |]];
    cbn [x y z is_finite] in *; try contradiction.
  rewrite !radians_finite.
  destruct (rotation_finite (PI * ry / 180) (PI * rx / 180) (PI * rz / 180))
    as (a & b & c & d & e & f & g & h & i & Hm).
  pose proof (rotation_determinant (PI * ry / 180) (PI * rx / 180)
                                   (PI * rz / 180)) as Hdet.
  rewrite Hm in *.
  apply (inverse_finite a b c d e f g h i 1 Hdet). lra.
Qed.

(** *** The distance bound of the ray query *)

Section RayBound.
Variable intersectionTime : G3D.Ray xreal -> G3D.AABox xreal -> xreal.

Lemma scaled_back_within (s : R) (d' bound : xreal) :
  0 < s ->
  fleb bound bound = true ->
  fleb d' (fmul bound (Finite (1 / s))) = true ->
  fleb (fmul d' (Finite s)) bound = true.
Proof.
  intros Hs Hb Hd.
  assert (Hi : 0 < 1 / s) by (apply Rdiv_lt_0_compat; lra).
  destruct bound as [r | | |]; try discriminate;
    cbv [fmul fleb xreal_ops] in *; cbn [xmul] in *;
    rewrite ?(signed_inf_pos _ _ Hi) in Hd.
  - destruct d' as [r' | | |]; try discriminate; cbn [xmul].
    + apply xleb_finite in Hd. apply xleb_finite.
      assert (Hrt : r * (1 / s) * s = r) by (field; lra).
      nra.
    + now rewrite (signed_inf_pos _ _ Hs).
  - destruct d' as [r' | | |]; try discriminate; cbn [xmul];
      rewrite ?(signed_inf_pos _ _ Hs); reflexivity.
  - destruct d' as [r' | | |]; try discriminate; cbn [xmul].
    now rewrite (signed_inf_pos _ _ Hs).
Qed.

(** C3: in exact arithmetic, for an instance with a finite positive
    scale whose [iInvScale] is [1 / iScale], a distance bound that is
    not NaN and a mesh that only tightens the object-space distance it
    is handed, [intersectRay] returns, and the [pMaxDist] it leaves is
    at most the [pMaxDist] it was given; it is the given one unless the
    mesh reported a hit. *)
Theorem exact_bound_tightens (this : ModelInstance) pRay pMaxDist stop ign
    calls (s : R) :
  iScale this = Finite s -> 0 < s ->
  iInvScale this = fdiv fone (iScale this) ->
  fleb pMaxDist pMaxDist = true ->
  (forall m, iModel this = Some m -> only_tightens m) ->
  exists hit out calls',
    intersectRay intersectionTime this pRay pMaxDist stop ign calls
    = Returns (hit, out) calls'
    /\ fleb out pMaxDist = true
    /\ (hit = false -> out = pMaxDist).
Proof.
  intros Hscale Hs Hinv Hx Hmesh.
  destruct (iModel this) as [m|] eqn:Hm.
  - destruct (feqb (intersectionTime pRay (iBound this)) finf) eqn:Ht.
    + exists false, pMaxDist, calls. unfold intersectRay.
      rewrite Hm, Ht. auto.
    + rewrite (QueryFacts.intersectRay_delegates intersectionTime this m pRay
                 pMaxDist stop ign calls Hm Ht).
      do 3 eexists. split; [reflexivity | ].
      specialize (Hmesh m eq_refl).
      match goal with
      | |- context [wm_IntersectRay m ?r ?d stop ign] =>
        specialize (Hmesh r d stop ign);
        destruct (wm_IntersectRay m r d stop ign) as [hit d']
      end.
      cbn [fst snd] in *. destruct hit; [ | auto].
      split; [ | discriminate].
      rewrite Hinv, Hscale, (xdiv_one s (Rgt_not_eq _ _ Hs)) in *.
      apply scaled_back_within; try assumption.
      apply Hmesh.
      destruct pMaxDist as [r | | |]; try discriminate;
        cbv [fmul fleb xreal_ops]; cbn [xmul].
      * apply xleb_finite. lra.
      * rewrite signed_inf_pos by (apply Rdiv_lt_0_compat; lra). reflexivity.
      * rewrite signed_inf_pos by (apply Rdiv_lt_0_compat; lra). reflexivity.
  - exists false, pMaxDist, calls.
    rewrite (QueryFacts.intersectRay_unloaded intersectionTime this pRay
               pMaxDist stop ign calls Hm). auto.
Qed.
End RayBound.
End ExactFacts.

(** ** The statements at concrete placements *)

Module Concrete.
Import G3D VMAP Props Fixtures.

Section Meshes.
Context {float : Type} {FO : FloatOps float}.

Lemma surface_mesh_only_tightens (surface zDist : float) group :
  only_tightens (surface_mesh surface zDist group).
Proof.
  intros modRay d stop ign Hd. cbn [surface_mesh wm_IntersectRay].
  destruct (fleb surface d) eqn:Hs; cbn [snd]; assumption.
Qed.

Lemma surface_mesh_keeps_ground (surface zDist : float) group :
  keeps_ground (surface_mesh surface zDist group).
Proof. intros pModel zDir info. split; reflexivity. Qed.

Lemma surface_mesh_reports_ground (surface zDist : float) group this p :
  reports_ground (surface_mesh surface zDist group) this p zDist.
Proof. intros info. reflexivity. Qed.
End Meshes.

(** *** binary32 *)
Module OnBinary32.
Import Binary32 Fixtures.B32.
Local Open Scope Z_scope.

Lemma intersectRay_box_miss_witness :
  feqb (inside_time (ray_from far_away) (iBound lower)) finf = true
  /\ iModel lower <> None
  /\ intersectRay inside_time lower (ray_from far_away) (f 100) false false []
     = Returns (false, f 100) [].
Proof.
  split; [vm_compute; reflexivity | ]. split; [discriminate | ].
  apply (QueryFacts.intersectRay_box_miss inside_time lower).
  vm_compute; reflexivity.
Defined.

Lemma point_queries_gated_witness :
  (Z.land (flags prop_m2) MOD_M2 <> 0
   /\ contains (iBound lower) far_away = false)
  /\ intersectPoint MOD_M2 prop_m2 above (no_area (fopp finf)) []
     = Returns (no_area (fopp finf)) []
  /\ GetLocationInfo MOD_M2 lower far_away (no_location (fopp finf)) []
     = Returns (false, no_location (fopp finf)) [].
Proof.
  assert (Hm2 : Z.land (flags prop_m2) MOD_M2 <> 0) by discriminate.
  assert (Hout : contains (iBound lower) far_away = false)
    by (vm_compute; reflexivity).
  split; [split; assumption | ]. split.
  - apply (QueryFacts.point_queries_gated MOD_M2 prop_m2 above
             (or_introl Hm2)).
  - apply (QueryFacts.point_queries_gated MOD_M2 lower far_away
             (or_intror Hout)).
Defined.

Lemma height_gates_result_witness :
  let h5 := worldHeight lower (modelGround lower above (f 5)) in
  let h8 := worldHeight upper (modelGround upper above (f 2)) in
  (h5 = f 5 /\ h8 = f 8 /\ adtId upper = 22)
  /\ forall order,
      order = [lower; upper] \/ order = [upper; lower] ->
      exists info' calls',
        lookup_all MOD_M2 order above (no_area (fopp finf)) []
        = Returns info' calls'
        /\ ai_ground_Z info' = h8 /\ ai_adtId info' = adtId upper.
Proof.
  intros h5 h8.
  split; [repeat split; vm_compute; reflexivity | ].
  assert (Hin : contains (iBound lower) above = true)
    by (vm_compute; reflexivity).
  assert (Hin' : contains (iBound upper) above = true)
    by (vm_compute; reflexivity).
  assert (H05 : fltb (ai_ground_Z (no_area (fopp finf))) h5 = true)
    by (vm_compute; reflexivity).
  assert (H08 : fltb (ai_ground_Z (no_area (fopp finf))) h8 = true)
    by (vm_compute; reflexivity).
  assert (H58 : fltb h5 h8 = true) by (vm_compute; reflexivity).
  assert (H85 : fltb h8 h5 = false) by (vm_compute; reflexivity).
  destruct (QueryFacts.height_gates_result MOD_M2 lower
              (surface_mesh (f 5) (f 5) None) above
              eq_refl eq_refl Hin) as (_ & _ & Htop).
  exact (Htop upper (surface_mesh (f 2) (f 2) None) (f 5) (f 2)
              (no_area (fopp finf)) [] eq_refl eq_refl Hin'
              (surface_mesh_keeps_ground _ _ _)
              (surface_mesh_keeps_ground _ _ _)
              (surface_mesh_reports_ground _ _ _ _ _)
              (surface_mesh_reports_ground _ _ _ _ _)
              H05 H08 H58 H85).
Defined.

Lemma unloaded_degrades_witness :
  iModel unloaded = None /\ degrades inside_time MOD_M2 unloaded.
Proof.
  split; [reflexivity | ].
  exact (proj1 (QueryFacts.unloaded_degrades inside_time MOD_M2 unloaded
                  eq_refl)).
Defined.

(** With no mesh attached the liquid query still answers: asked with a
    result that names a pool, it returns true and the level 3. *)
Lemma unloaded_liquid_answers :
  iModel unloaded = None
  /\ returned (GetLiquidLevel unloaded above pool_info (f 0) [])
     = Some (true, f 3)
  /\ ~ liquid_misses unloaded above pool_info (f 0) []
  /\ GetLiquidLevel unloaded above (no_location (fopp finf)) (f 0) []
     = NullDereference.
Proof.
  split; [reflexivity | ]. split; [vm_compute; reflexivity | ].
  split; [ | reflexivity].
  unfold liquid_misses. vm_compute. discriminate.
Qed.

(** Scale -1: the bound 10 goes to the object space as -10, a mesh with
    a surface at -20 tightens it, and it comes back as 20. *)
Example negative_scale_raises_bound :
  let mirrored :=
    placed 0 88 (f (-1)) (fdiv fone (f (-1))) wide_box
           (Some (surface_mesh (f (-20)) (f 5) None)) in
  returned (intersectRay inside_time mirrored (ray_from above) (f 10)
                         false false [])
  = Some (true, f 20)
  /\ fleb (f 20) (f 10) = false.
Proof. split; vm_compute; reflexivity. Qed.

Lemma GetLiquidLevel_spec_witness :
  fst (fst (wm_GetLocationInfo (surface_mesh (f 5) (f 5) (Some (pool (f 3))))
                               (toModel flooded above) (zDirModel flooded)
                               GroupLocationInfo_default)) = true
  /\ li_hitModel pool_info = Some (pool (f 3))
  /\ GetLiquidLevel flooded above pool_info (f 0) []
     = Returns (true, f 3) [CallGetLiquidLevel (toModel flooded above)]
  /\ returned (GetLiquidLevel flooded (vec (f 0) (f 0) (f 500)) pool_info
                              (f 0) [])
     = Some (true, f 3).
Proof.
  split; [reflexivity | ]. split; [reflexivity | ].
  destruct (QueryFacts.GetLiquidLevel_spec flooded above pool_info (f 0) []
              (pool (f 3)) eq_refl) as [Hanswer Hflat].
  split.
  - rewrite Hanswer. vm_compute. reflexivity.
  - rewrite (Hflat (fun q q' _ _ => eq_refl) (vec (f 0) (f 0) (f 500)));
      [ rewrite Hanswer; vm_compute; reflexivity
      | vm_compute; reflexivity | vm_compute; reflexivity ].
Defined.

(** Scale 3, bound 100, a hit exactly at the object-space bound: the
    bound goes to the object space as [100 * (1 / 3)] and comes back as
    that times 3, which in binary32 is the next value above 100. *)
Lemma rounding_raises_bound :
  intersectRay inside_time tripled (ray_from above) (f 100) false false []
  = Returns (true, 1120403457)
            [CallIntersectRay (mkRay (toModel tripled above)
                                     (vec (f 1) (f 0) (f 0)))
                              (fmul (f 100) third) false false]
  /\ f 100 = 1120403456
  /\ fltb (f 100) 1120403457 = true
  /\ ~ bound_never_increases inside_time tripled (ray_from above) (f 100)
                             false false [].
Proof.
  split; [vm_compute; reflexivity | ]. split; [vm_compute; reflexivity | ].
  split; [vm_compute; reflexivity | ].
  intros Hclaim.
  assert (Hmesh : forall m, iModel tripled = Some m -> only_tightens m).
  { intros m Hm. injection Hm as <-. apply surface_mesh_only_tightens. }
  specialize (Hclaim Hmesh (true, 1120403457)).
  assert (Hrun : returned (intersectRay inside_time tripled (ray_from above)
                                        (f 100) false false [])
                 = Some (true, 1120403457)) by (vm_compute; reflexivity).
  specialize (Hclaim Hrun). clear Hrun. vm_compute in Hclaim.
  discriminate Hclaim.
Qed.

(** A NaN bound is returned as it came, and NaN is not at most NaN. *)
Example nan_bound_is_not_below_itself :
  returned (intersectRay inside_time unloaded (ray_from above) nan_bits
                         false false [])
  = Some (false, nan_bits)
  /\ fleb nan_bits nan_bits = false.
Proof. split; vm_compute; reflexivity. Qed.

Local Ltac in_range := split; [vm_compute; discriminate | vm_compute; reflexivity].
Local Ltac a_float := split; [in_range | reflexivity].
Local Ltac a_vector := split; [a_float | split; a_float].

Lemma tree_spawn_well_typed : Codec.well_typed MOD_HAS_BOUND tree_spawn.
Proof.
  unfold Codec.well_typed.
  split; [in_range | ]. split; [in_range | ]. split; [in_range | ].
  split; [a_vector | ]. split; [a_vector | ]. split; [a_float | ].
  intros _. split; a_vector.
Defined.

Lemma write_then_read_witness :
  exists wf' s',
    Codec.writeToFile MOD_HAS_BOUND (Codec.mkWfile [] 100) tree_spawn
    = (true, wf')
    /\ Codec.wbytes wf' = [] ++ Codec.record_layout MOD_HAS_BOUND tree_spawn
    /\ Codec.readFromFile MOD_HAS_BOUND
         (Codec.record_layout MOD_HAS_BOUND tree_spawn ++ []) blank_spawn
       = (true, s', [])
    /\ flags s' = flags tree_spawn /\ adtId s' = adtId tree_spawn
    /\ ID s' = ID tree_spawn
    /\ iPos s' = iPos tree_spawn /\ iRot s' = iRot tree_spawn
    /\ iScale s' = iScale tree_spawn
    /\ name s' = name tree_spawn
    /\ iBound s'
       = (if Codec.has_bound_flag MOD_HAS_BOUND (flags tree_spawn)
          then iBound tree_spawn else iBound blank_spawn).
Proof.
  apply (CodecFacts.write_then_read MOD_HAS_BOUND tree_spawn blank_spawn
           (Codec.mkWfile [] 100) [] tree_spawn_well_typed).
  - vm_compute. lia.
  - vm_compute. lia.
Defined.

(** The record without the has-bound flag: what is read back has the
    bound of the destination. *)
Example bush_read_back :
  Codec.readFromFile MOD_HAS_BOUND
    (Codec.record_layout MOD_HAS_BOUND bush_spawn) blank_spawn
  = (true, Codec.set_iBound bush_spawn (iBound blank_spawn), []).
Proof. vm_compute. reflexivity. Qed.

Lemma short_stream_rejected_witness :
  Z.of_nat (Codec.fields_delivered MOD_HAS_BOUND flags_only) = 1
  /\ (length flags_only
      < Codec.header_bytes
          (Codec.has_bound_flag MOD_HAS_BOUND (Codec.stream_flags flags_only)))%nat
  /\ exists s',
      Codec.readFromFile MOD_HAS_BOUND flags_only blank_spawn
      = (false, s', [])
      /\ name s' = name blank_spawn
      /\ (flags_only = [] -> s' = blank_spawn)
      /\ ((0 < length flags_only < 4)%nat ->
          s' = Codec.set_flags blank_spawn
                 (le_combine
                    (Codec.overwritten flags_only
                       (le_split 4 (flags blank_spawn)))))
      /\ ((4 <= length flags_only)%nat ->
          flags s' = Codec.stream_flags flags_only).
Proof.
  split; [vm_compute; reflexivity | ].
  apply (CodecFacts.short_stream_rejected MOD_HAS_BOUND flags_only blank_spawn).
  vm_compute. discriminate.
Defined.

(** A stream cut after the flags word: the decode fails, and the flags of
    the destination have been overwritten. *)
Lemma short_stream_overwrites_flags :
  Z.of_nat (Codec.fields_delivered MOD_HAS_BOUND flags_only)
  <> Codec.expected_fields
       (Codec.has_bound_flag MOD_HAS_BOUND (Codec.stream_flags flags_only))
  /\ Codec.readFromFile MOD_HAS_BOUND flags_only blank_spawn
     = (false, Codec.set_flags blank_spawn 1, [])
  /\ ~ Codec.leaves_unmodified MOD_HAS_BOUND flags_only blank_spawn.
Proof.
  split; [vm_compute; discriminate | ].
  split; [vm_compute; reflexivity | ].
  intros [rf' H]. vm_compute in H. discriminate H.
Qed.

(** A stream that ends inside the flags word: the decode fails, and the
    three bytes that were there are the low-order bytes of the flags of
    the destination. *)
Example partial_word_overwrites_flags :
  Codec.readFromFile MOD_HAS_BOUND [Byte.xff; Byte.xff; Byte.xff] blank_spawn
  = (false, Codec.set_flags blank_spawn 16777215, []).
Proof. vm_compute. reflexivity. Qed.

(** A stream that ends inside the tile id: its one byte is the low-order
    byte of the tile id of the destination, whose other byte stays. *)
Example partial_word_overwrites_adtId :
  adtId (snd (fst (Codec.readFromFile MOD_HAS_BOUND
                     [Byte.x00; Byte.x00; Byte.x00; Byte.x00; Byte.xee]
                     (Codec.set_adtId blank_spawn 48042))))
  = 48110.
Proof. vm_compute. reflexivity. Qed.
End OnBinary32.

(** *** exact arithmetic *)
Module OnExact.
Import Exact Fixtures.X ExactFacts.
Local Open Scope R_scope.

Lemma constructor_inverts_witness :
  let this := ModelInstance_new turned None in
  iInvScale this = fdiv fone (iScale turned)
  /\ (forall s, iScale turned = Finite s -> s <> 0 ->
                iInvScale this = Finite (1 / s))
  /\ rotation_of turned
     = fromEulerAnglesZYX (fdiv (fmul fpi (y (iRot turned))) f180)
                          (fdiv (fmul fpi (x (iRot turned))) f180)
                          (fdiv (fmul fpi (z (iRot turned))) f180)
  /\ is_inverse (rotation_of turned) (iInvRot this).
Proof. exact (constructor_inverts turned None I I I). Defined.

Lemma exact_bound_tightens_witness :
  exists hit out calls',
    intersectRay inside_time doubled ray_out (Finite 10) false false []
    = Returns (hit, out) calls'
    /\ fleb out (Finite 10) = true
    /\ (hit = false -> out = Finite 10).
Proof.
  apply (exact_bound_tightens inside_time doubled ray_out (Finite 10)
           false false [] 2 eq_refl).
  - lra.
  - reflexivity.
  - apply xleb_finite. lra.
  - intros m Hm. injection Hm as <-. apply surface_mesh_only_tightens.
Defined.

(** The record turned by 90 degrees in [iRot.x]: the matrix the
    constructor stores is not the inverse of the rotation whose yaw is
    [iRot.z], whose pitch is [iRot.y] and whose roll is [iRot.x]. *)
Lemma stored_inverse_is_not_of_zyx_axes :
  iRot turned = vec (Finite 90) (Finite 0) (Finite 0)
  /\ ~ is_inverse (rotation_zyx_of turned)
                  (iInvRot (ModelInstance_new turned None)).
Proof.
  split; [reflexivity | ].
  unfold rotation_zyx_of, ModelInstance_new, turned.
  cbn [iInvRot iRot x y z vec]. rewrite !radians_finite.
  replace (PI * 0 / 180) with 0 by lra.
  replace (PI * 90 / 180) with (PI / 2) by lra.
  intros [H _]. revert H.
  cbv [fromEulerAnglesZYX inverse determinant mulMM identity
       m00 m01 m02 m10 m11 m12 m20 m21 m22
       fzero fone fopp fadd fsub fmul fdiv fcos fsin xreal_ops xreal_trig
       xopp xadd xsub xmul xdiv xtrig].
  rewrite cos_0, sin_0, cos_PI2, sin_PI2.
  match goal with
  | |- context [Req_dec_T ?d 0] => replace d with 1 by ring
  end.
  destruct (Req_dec_T 1 0) as [H0 | _]; [lra | ].
  intros H. injection H as H00 _ _ _ _ _ _ _ _. lra.
Qed.
End OnExact.
End Concrete.

(** ** More on decoding and encoding *)

Module CodecMore.
Import G3D VMAP Codec CodecProps.

Section Generic.
Context {float : Type} {FR : FloatRep float}.
Variable MOD_HAS_BOUND : Z.
Local Open Scope Z_scope.

Local Abbreviation Vector3 := (G3D.Vector3 float).
Local Abbreviation ModelSpawn := (VMAP.ModelSpawn float).
Local Abbreviation readFromFile := (Codec.readFromFile MOD_HAS_BOUND).
Local Abbreviation writeToFile := (Codec.writeToFile MOD_HAS_BOUND).
Local Abbreviation record_layout := (Codec.record_layout MOD_HAS_BOUND).
Local Abbreviation has_bound_flag := (Codec.has_bound_flag MOD_HAS_BOUND).

Local Ltac sized :=
  first [ discriminate | assumption | (cbn [wroom]; lia) ].

Local Ltac read_chunk :=
  rewrite CodecFacts.fread_exact by sized; cbv beta iota zeta.

Local Ltac project_fields :=
  cbn [flags adtId ID iPos iRot iScale iBound name
       set_flags set_adtId set_ID set_iPos set_iRot set_iScale set_iBound
       set_name].

(** What [readFromFile] does with a stream that starts with a complete
    header, given as its chunks. *)
Lemma readFromFile_chunks (bf ba bi bp br bs bb bl tail : list byte)
    (s0 : ModelSpawn) :
  length bf = 4%nat -> length ba = 2%nat -> length bi = 4%nat ->
  length bp = 12%nat -> length br = 12%nat -> length bs = 4%nat ->
  length bl = 4%nat ->
  length bb = (if has_bound_flag (le_combine bf) then 24 else 0)%nat ->
  let s1 :=
    mkModelSpawn (le_combine bf) (le_combine ba) (le_combine bi)
                 (load_Vector3 bp (iPos s0)) (load_Vector3 br (iRot s0))
                 (load_float 0 bs (iScale s0))
                 (if has_bound_flag (le_combine bf)
                  then mkAABox (load_Vector3 (firstn 12 bb) Vector3_zero)
                               (load_Vector3 (skipn 12 bb) Vector3_zero)
                  else iBound s0)
                 (name s0) in
  readFromFile (bf ++ ba ++ bi ++ bp ++ br ++ bs ++ bb ++ bl ++ tail) s0
  = read_name s1 (le_combine bl) tail.
Proof.
  intros Hf Ha Hi Hp Hr Hs Hl Hb s1. subst s1.
  unfold Codec.readFromFile, read_name.
  read_chunk.
  change (add32 0 1 =? 0) with false. cbv iota.
  do 5 read_chunk. project_fields.
  rewrite !CodecFacts.load_uint_whole by sized.
  destruct (has_bound_flag (le_combine bf)) eqn:Hflag.
  - rewrite <- (firstn_skipn 12 bb) at 1. rewrite <- app_assoc.
    assert (Hlo : length (firstn 12 bb) = 12%nat)
      by (rewrite length_firstn; lia).
    assert (Hhi : length (skipn 12 bb) = 12%nat)
      by (rewrite length_skipn; lia).
    do 3 read_chunk.
    rewrite !CodecFacts.load_uint_whole by sized.
    match goal with
    | |- context [negb (?c =? ?e)] =>
      let v := eval vm_compute in (negb (c =? e)) in
      change (negb (c =? e)) with v
    end; cbv iota.
    destruct s0; reflexivity.
  - destruct bb; [ | discriminate]. cbn [app].
    read_chunk.
    rewrite !CodecFacts.load_uint_whole by sized.
    match goal with
    | |- context [negb (?c =? ?e)] =>
      let v := eval vm_compute in (negb (c =? e)) in
      change (negb (c =? e)) with v
    end; cbv iota.
    destruct s0; reflexivity.
Qed.

(** A stream at least as long as the header its flags announce, cut into
    the chunks of that header. *)
Lemma header_chunks (rf : rfile) :
  (header_bytes (has_bound_flag (stream_flags rf)) <= length rf)%nat ->
  exists bf ba bi bp br bs bb bl tail,
    rf = bf ++ ba ++ bi ++ bp ++ br ++ bs ++ bb ++ bl ++ tail
    /\ length bf = 4%nat /\ length ba = 2%nat /\ length bi = 4%nat
    /\ length bp = 12%nat /\ length br = 12%nat /\ length bs = 4%nat
    /\ length bl = 4%nat
    /\ length bb = (if has_bound_flag (le_combine bf) then 24 else 0)%nat
    /\ le_combine bf = stream_flags rf
    /\ le_combine bl = declared_name_length MOD_HAS_BOUND rf
    /\ tail = after_header MOD_HAS_BOUND rf.
Proof.
  intros Hlen.
  unfold declared_name_length, after_header.
  set (nb := (if has_bound_flag (stream_flags rf) then 24 else 0)%nat).
  assert (Hh : header_bytes (has_bound_flag (stream_flags rf))
               = (42 + nb)%nat)
    by (unfold nb; destruct (has_bound_flag (stream_flags rf)); reflexivity).
  rewrite Hh in *.
  set (r1 := skipn 4 rf). set (r2 := skipn 2 r1). set (r3 := skipn 4 r2).
  set (r4 := skipn 12 r3). set (r5 := skipn 12 r4). set (r6 := skipn 4 r5).
  set (r7 := skipn nb r6).
  exists (firstn 4 rf), (firstn 2 r1), (firstn 4 r2), (firstn 12 r3),
    (firstn 12 r4), (firstn 4 r5), (firstn nb r6), (firstn 4 r7), (skipn 4 r7).
  assert (H7 : r7 = skipn (42 + nb - 4) rf).
  { unfold r7, r6, r5, r4, r3, r2, r1. rewrite !skipn_skipn. f_equal. lia. }
  assert (L1 : length r1 = (length rf - 4)%nat) by apply length_skipn.
  assert (L2 : length r2 = (length rf - 6)%nat)
    by (unfold r2; rewrite length_skipn; lia).
  assert (L3 : length r3 = (length rf - 10)%nat)
    by (unfold r3; rewrite length_skipn; lia).
  assert (L4 : length r4 = (length rf - 22)%nat)
    by (unfold r4; rewrite length_skipn; lia).
  assert (L5 : length r5 = (length rf - 34)%nat)
    by (unfold r5; rewrite length_skipn; lia).
  assert (L6 : length r6 = (length rf - 38)%nat)
    by (unfold r6; rewrite length_skipn; lia).
  assert (L7 : length r7 = (length rf - 38 - nb)%nat)
    by (unfold r7; rewrite length_skipn; lia).
  split.
  { unfold r7, r6, r5, r4, r3, r2, r1. now rewrite !firstn_skipn. }
  repeat split; try (rewrite length_firstn; lia).
  - rewrite length_firstn. fold (stream_flags rf). fold nb. lia.
  - now rewrite H7.
  - rewrite H7, skipn_skipn. reflexivity.
Qed.

(** *** Bytes that were loaded, stored again *)

Lemma le_split_combine4 (c : list byte) :
  length c = 4%nat -> le_split 4 (le_combine c) = c.
Proof. intros H. rewrite <- H. apply split_le_combine. Qed.

Lemma le_split_combine2 (c : list byte) :
  length c = 2%nat -> le_split 2 (le_combine c) = c.
Proof. intros H. rewrite <- H. apply split_le_combine. Qed.

Lemma le_combine_range4 (c : list byte) :
  length c = 4%nat -> 0 <= le_combine c < 2 ^ 32.
Proof.
  intros H. pose proof (le_combine_bound c) as Hb. rewrite H in Hb. exact Hb.
Qed.

Lemma float_bytes_loaded (c : list byte) :
  bits_kept -> length c = 4%nat ->
  float_bytes (float_of_bits (le_combine c)) = c.
Proof.
  intros Hk Hc. unfold float_bytes.
  rewrite (Hk _ (le_combine_range4 c Hc)). now apply le_split_combine4.
Qed.

Lemma load_float_whole (c : list byte) (old : float) :
  length c = 4%nat -> load_float 0 c old = float_of_bits (le_combine c).
Proof.
  intros Hc. rewrite CodecFacts.load_float_at by lia.
  change (4 * 0)%nat with 0%nat. cbn [skipn].
  rewrite <- Hc, firstn_all. reflexivity.
Qed.

Lemma Vector3_bytes_loaded (c : list byte) (old : Vector3) :
  bits_kept -> length c = 12%nat ->
  Vector3_bytes (load_Vector3 c old) = c.
Proof.
  intros Hk Hc. unfold Vector3_bytes, load_Vector3.
  cbn [x y z]. rewrite !CodecFacts.load_float_at by lia.
  assert (H0 : length (firstn 4 (skipn (4 * 0) c)) = 4%nat)
    by (rewrite length_firstn, length_skipn; lia).
  assert (H1 : length (firstn 4 (skipn (4 * 1) c)) = 4%nat)
    by (rewrite length_firstn, length_skipn; lia).
  assert (H2 : length (firstn 4 (skipn (4 * 2) c)) = 4%nat)
    by (rewrite length_firstn, length_skipn; lia).
  rewrite !float_bytes_loaded by assumption.
  change (4 * 0)%nat with 0%nat. change (4 * 1)%nat with 4%nat.
  change (4 * 2)%nat with (4 + 4)%nat. cbn [skipn].
  transitivity (firstn 4 c ++ firstn 4 (skipn 4 c) ++ skipn 4 (skipn 4 c)).
  - f_equal. f_equal. rewrite skipn_skipn.
    apply firstn_all2. rewrite length_skipn. lia.
  - now rewrite !firstn_skipn.
Qed.

(** What [readFromFile] does with a stream that holds a complete header:
    it goes on to the name with a record whose name is still the one of
    the destination and whose encoded header is the header of the
    stream. *)
Lemma readFromFile_complete_header (rf : rfile) (s0 : ModelSpawn) :
  let h := header_bytes (has_bound_flag (stream_flags rf)) in
  (h <= length rf)%nat ->
  exists s1,
    readFromFile rf s0
    = read_name s1 (declared_name_length MOD_HAS_BOUND rf)
                (after_header MOD_HAS_BOUND rf)
    /\ name s1 = name s0 /\ flags s1 = stream_flags rf
    /\ 0 <= flags s1 < 2 ^ 32 /\ 0 <= adtId s1 < 2 ^ 16
    /\ 0 <= ID s1 < 2 ^ 32
    /\ 0 <= declared_name_length MOD_HAS_BOUND rf < 2 ^ 32
    /\ (bits_kept ->
        forall nm,
          Z.of_nat (length nm) = declared_name_length MOD_HAS_BOUND rf ->
          record_layout (set_name s1 nm) = firstn h rf ++ nm).
Proof.
  intros h Hlen.
  destruct (header_chunks rf Hlen)
    as (bf & ba & bi & bp & br & bs & bb & bl & tail & Hrf & Hf & Ha & Hi & Hp
        & Hr & Hs & Hl & Hb & Hfl & Hn & Ht).
  pose proof (readFromFile_chunks bf ba bi bp br bs bb bl tail s0
                Hf Ha Hi Hp Hr Hs Hl Hb) as Hread.
  cbv zeta in Hread. rewrite <- Hrf, Hn, Ht in Hread.
  eexists. split; [exact Hread | ].
  cbn [name flags adtId ID].
  split; [reflexivity | ]. split; [exact Hfl | ].
  split; [now apply le_combine_range4 | ].
  split.
  { pose proof (le_combine_bound ba) as Hba. rewrite Ha in Hba. exact Hba. }
  split; [now apply le_combine_range4 | ].
  split; [rewrite <- Hn; now apply le_combine_range4 | ].
  intros Hk nm Hnm.
  assert (Hh : length (bf ++ ba ++ bi ++ bp ++ br ++ bs ++ bb ++ bl) = h).
  { rewrite !length_app, Hf, Ha, Hi, Hp, Hr, Hs, Hl, Hb.
    unfold h. rewrite <- Hfl.
    destruct (has_bound_flag (le_combine bf)); reflexivity. }
  assert (Hhead : firstn h rf = bf ++ ba ++ bi ++ bp ++ br ++ bs ++ bb ++ bl).
  { rewrite <- Hh. clear Hh. clearbody h. rewrite Hrf.
    replace (bf ++ ba ++ bi ++ bp ++ br ++ bs ++ bb ++ bl ++ tail)
      with ((bf ++ ba ++ bi ++ bp ++ br ++ bs ++ bb ++ bl) ++ tail)
      by (rewrite <- !app_assoc; reflexivity).
    now apply CodecFacts.firstn_app_exact. }
  rewrite Hhead. unfold Codec.record_layout.
  cbn [flags adtId ID iPos iRot iScale iBound name set_name].
  rewrite Hnm, <- Hn.
  rewrite !le_split_combine4, le_split_combine2 by assumption.
  rewrite !Vector3_bytes_loaded by assumption.
  rewrite load_float_whole, float_bytes_loaded by assumption.
  rewrite <- !app_assoc. do 6 f_equal.
  destruct (has_bound_flag (le_combine bf)).
  - cbn [low high].
    rewrite !Vector3_bytes_loaded;
      try assumption;
      try (rewrite length_firstn; lia); try (rewrite length_skipn; lia).
    rewrite firstn_skipn. reflexivity.
  - destruct bb; [reflexivity | discriminate].
Qed.

(** *** Names that are too long or cut short *)

(** X1: a stream with a complete header that declares a name of more than
    500 bytes: [readFromFile] returns false, leaves the name of the
    destination alone and has consumed the header only, none of the bytes
    after it. *)
Theorem oversized_name_rejected (rf : rfile) (s0 : ModelSpawn) :
  (header_bytes (has_bound_flag (stream_flags rf)) <= length rf)%nat ->
  500 < declared_name_length MOD_HAS_BOUND rf ->
  exists s',
    readFromFile rf s0 = (false, s', after_header MOD_HAS_BOUND rf)
    /\ name s' = name s0 /\ flags s' = stream_flags rf.
Proof.
  intros Hlen Hbig.
  destruct (readFromFile_complete_header rf s0 Hlen)
    as (s1 & -> & Hname & Hflags & _).
  unfold read_name. apply Z.ltb_lt in Hbig. rewrite Hbig.
  exists s1. auto.
Qed.

(** X2: a stream with a complete header whose declared name length is at
    most 500 but exceeds the bytes that follow: [readFromFile] returns
    false, leaves the name of the destination alone and leaves the stream
    at its end. *)
Theorem truncated_name_rejected (rf : rfile) (s0 : ModelSpawn) :
  (header_bytes (has_bound_flag (stream_flags rf)) <= length rf)%nat ->
  declared_name_length MOD_HAS_BOUND rf <= 500 ->
  Z.of_nat (length (after_header MOD_HAS_BOUND rf))
  < declared_name_length MOD_HAS_BOUND rf ->
  exists s',
    readFromFile rf s0 = (false, s', []) /\ name s' = name s0.
Proof.
  intros Hlen Hok Hshort.
  destruct (readFromFile_complete_header rf s0 Hlen)
    as (s1 & -> & Hname & _).
  unfold read_name, fread. cbv beta iota zeta.
  replace (500 <? declared_name_length MOD_HAS_BOUND rf) with false
    by (symmetry; apply Z.ltb_ge; lia).
  rewrite Nat.div_1_r.
  assert (Hmin : Nat.min (Z.to_nat (declared_name_length MOD_HAS_BOUND rf))
                         (length (after_header MOD_HAS_BOUND rf))
                 = length (after_header MOD_HAS_BOUND rf)) by lia.
  rewrite Hmin.
  assert (Hne : (u32 (Z.of_nat (length (after_header MOD_HAS_BOUND rf)))
                 =? declared_name_length MOD_HAS_BOUND rf) = false).
  { apply Z.eqb_neq. unfold u32. rewrite Z.mod_small by lia. lia. }
  rewrite Hne. cbn [negb].
  exists s1. split; [ | exact Hname].
  f_equal. apply skipn_all2. lia.
Qed.

(** *** Decoding, then encoding *)

Lemma read_name_success (s1 s' : ModelSpawn) (n : Z) (tail rf' : rfile) :
  0 <= n ->
  read_name s1 n tail = (true, s', rf') ->
  n <= 500 /\ (Z.to_nat n <= length tail)%nat
  /\ s' = set_name s1 (firstn (Z.to_nat n) tail)
  /\ rf' = skipn (Z.to_nat n) tail.
Proof.
  intros Hn. unfold read_name, fread. cbv beta iota zeta.
  destruct (500 <? n) eqn:Hbig; [discriminate | ].
  apply Z.ltb_ge in Hbig. rewrite Nat.div_1_r, ?Nat.mul_1_r.
  destruct (u32 (Z.of_nat (Nat.min (Z.to_nat n) (length tail))) =? n) eqn:He;
    cbn [negb]; [ | discriminate].
  apply Z.eqb_eq in He. unfold u32 in He. rewrite Z.mod_small in He by lia.
  assert (Hfit : (Z.to_nat n <= length tail)%nat) by lia.
  rewrite ?Nat.mul_1_r.
  intros H. injection H as <- <-.
  rewrite firstn_firstn, Nat.min_id. auto.
Qed.

(** X3: whenever [readFromFile] returns true, the bytes it consumed are
    the layout of the record it produced: the stream is that layout
    followed by the stream it leaves.  The record has a name of at most
    500 bytes and integer fields within their types, so [writeToFile]
    writes the same bytes again. *)
Theorem decoded_reencodes (rf rf' : rfile) (s0 s' : ModelSpawn) (wf : wfile) :
  bits_kept ->
  readFromFile rf s0 = (true, s', rf') ->
  rf = record_layout s' ++ rf'
  /\ (length (name s') <= 500)%nat
  /\ 0 <= flags s' < 2 ^ 32 /\ 0 <= adtId s' < 2 ^ 16 /\ 0 <= ID s' < 2 ^ 32
  /\ ((length (record_layout s') <= wroom wf)%nat ->
      writeToFile wf s'
      = (true, mkWfile (wbytes wf ++ record_layout s')
                       (wroom wf - length (record_layout s')))).
Proof.
  intros Hk Hread.
  destruct (Nat.lt_ge_cases (length rf)
              (header_bytes (has_bound_flag (stream_flags rf))))
    as [Hshort | Hlen].
  { assert (Hcount : Z.of_nat (fields_delivered MOD_HAS_BOUND rf)
                     <> expected_fields (has_bound_flag (stream_flags rf))).
    { intros Hc. apply (CodecFacts.fields_delivered_full MOD_HAS_BOUND rf) in Hc.
      lia. }
    destruct (CodecFacts.readFromFile_short MOD_HAS_BOUND rf s0 Hcount)
      as (s2 & Hfail & _).
    rewrite Hfail in Hread. discriminate Hread. }
  destruct (readFromFile_complete_header rf s0 Hlen)
    as (s1 & Hstep & Hname & Hflags & Hrf & Hra & Hri & Hrn & Hlayout).
  rewrite Hstep in Hread.
  destruct (read_name_success _ _ _ _ _ (proj1 Hrn) Hread)
    as (Hsmall & Hfit & -> & ->).
  assert (Hnm : Z.of_nat (length (firstn
                  (Z.to_nat (declared_name_length MOD_HAS_BOUND rf))
                  (after_header MOD_HAS_BOUND rf)))
                = declared_name_length MOD_HAS_BOUND rf).
  { rewrite length_firstn, Nat.min_l by exact Hfit. lia. }
  assert (Hlen500 : (length (name (set_name s1 (firstn
                       (Z.to_nat (declared_name_length MOD_HAS_BOUND rf))
                       (after_header MOD_HAS_BOUND rf)))) <= 500)%nat).
  { cbn [name set_name]. lia. }
  split.
  { rewrite (Hlayout Hk _ Hnm), <- app_assoc, firstn_skipn.
    unfold after_header. now rewrite firstn_skipn. }
  split; [exact Hlen500 | ].
  cbn [flags adtId ID set_name].
  split; [exact Hrf | ]. split; [exact Hra | ]. split; [exact Hri | ].
  intros Hroom. now apply CodecFacts.writeToFile_layout.
Qed.

(** X4: the layout is self-delimiting.  If the layouts of two well-typed
    records with names of at most 500 bytes, each followed by anything,
    are the same stream, then what follows is the same and the records
    agree on every encoded field. *)
Theorem layout_self_delimiting (s1 s2 : ModelSpawn) (r1 r2 : list byte) :
  well_typed MOD_HAS_BOUND s1 -> well_typed MOD_HAS_BOUND s2 ->
  (length (name s1) <= 500)%nat -> (length (name s2) <= 500)%nat ->
  record_layout s1 ++ r1 = record_layout s2 ++ r2 ->
  r1 = r2
  /\ flags s1 = flags s2 /\ adtId s1 = adtId s2 /\ ID s1 = ID s2
  /\ iPos s1 = iPos s2 /\ iRot s1 = iRot s2 /\ iScale s1 = iScale s2
  /\ name s1 = name s2
  /\ (has_bound_flag (flags s1) = true -> iBound s1 = iBound s2).
Proof.
  intros Hw1 Hw2 Hn1 Hn2 Heq.
  pose proof (CodecFacts.readFromFile_layout MOD_HAS_BOUND s1 s1 r1 Hw1 Hn1)
    as H1.
  pose proof (CodecFacts.readFromFile_layout MOD_HAS_BOUND s2 s1 r2 Hw2 Hn2)
    as H2.
  rewrite Heq, H2 in H1.
  injection H1 as Hfl Had Hid Hps Hrt Hsc Hbd Hnm Hr.
  repeat (split; [now symmetry | ]).
  intros Hb. rewrite Hfl, Hb in Hbd. now symmetry.
Qed.

(** *** Names beyond the limit *)

Lemma name_length_fits (s : ModelSpawn) :
  Z.of_nat (length (name s)) < 2 ^ 32 ->
  u32 (Z.of_nat (length (name s))) = Z.of_nat (length (name s)).
Proof. intros H. unfold u32. apply Z.mod_small. lia. Qed.

Local Ltac length_side :=
  first [ discriminate
        | apply length_le_split
        | apply CodecFacts.Vector3_bytes_length
        | apply CodecFacts.float_bytes_length
        | (cbn [wroom]; lia) ].

Lemma writeToFile_with_room (s : ModelSpawn) (wf : wfile) :
  Z.of_nat (length (name s)) < 2 ^ 32 ->
  (length (record_layout s) <= wroom wf)%nat ->
  writeToFile wf s
  = (true, mkWfile (wbytes wf ++ record_layout s)
                   (wroom wf - length (record_layout s))).
Proof.
  intros Hname Hroom. rewrite (CodecFacts.record_layout_length _ s) in *.
  unfold Codec.writeToFile, Codec.record_layout.
  rewrite (name_length_fits s Hname), Nat2Z.id.
  destruct (has_bound_flag (flags s)) eqn:Hb; cbn [header_bytes] in *;
    repeat (rewrite CodecFacts.fwrite_fits by length_side;
            cbv beta iota zeta).
  all: cbn [wbytes wroom].
  all: match goal with
       | |- context [negb (?c =? ?e)] =>
         let v := eval vm_compute in (negb (c =? e)) in
         change (negb (c =? e)) with v
       end; cbv iota.
  all: rewrite (name_length_fits s Hname), Z.eqb_refl.
  all: f_equal; f_equal; [ rewrite <- !app_assoc; reflexivity | lia ].
Qed.

(** X6: the limit of 500 name bytes is enforced by the decoder only.  A
    well-typed record with a longer name is written in full, and
    [readFromFile] then rejects what was written: it returns false with
    the name of the destination untouched and stops in front of the name
    bytes. *)
Theorem long_name_written_then_rejected (s s0 : ModelSpawn) (wf : wfile)
    (rest : list byte) :
  well_typed MOD_HAS_BOUND s ->
  (500 < length (name s))%nat ->
  Z.of_nat (length (name s)) < 2 ^ 32 ->
  (length (record_layout s) <= wroom wf)%nat ->
  writeToFile wf s
  = (true, mkWfile (wbytes wf ++ record_layout s)
                   (wroom wf - length (record_layout s)))
  /\ exists s',
      readFromFile (record_layout s ++ rest) s0 = (false, s', name s ++ rest)
      /\ name s' = name s0.
Proof.
  intros Hwt Hlong Hname Hroom.
  split; [now apply writeToFile_with_room | ].
  unfold Codec.record_layout. rewrite <- !app_assoc.
  assert (Hb : length (if has_bound_flag (flags s)
                       then Vector3_bytes (low (iBound s))
                            ++ Vector3_bytes (high (iBound s))
                       else [])
               = (if has_bound_flag (le_combine (le_split 4 (flags s)))
                  then 24 else 0)%nat).
  { destruct Hwt as (Hf & _).
    rewrite (CodecFacts.le_combine_split_u32 (flags s) Hf).
    destruct (has_bound_flag (flags s)); [ | reflexivity].
    rewrite length_app, !CodecFacts.Vector3_bytes_length. reflexivity. }
  rewrite (readFromFile_chunks _ _ _ _ _ _ _ _ (name s ++ rest) s0
             (length_le_split 4 _) (length_le_split 2 _)
             (length_le_split 4 _)
             (CodecFacts.Vector3_bytes_length _)
             (CodecFacts.Vector3_bytes_length _)
             (CodecFacts.float_bytes_length _)
             (length_le_split 4 _) Hb).
  unfold read_name.
  rewrite CodecFacts.le_combine_split_u32 by lia.
  assert (Hbig : (500 <? Z.of_nat (length (name s))) = true)
    by (apply Z.ltb_lt; lia).
  rewrite Hbig. eexists. split; reflexivity.
Qed.
End Generic.
End CodecMore.

(** ** More on the placement transform, in exact arithmetic *)

Module ExactMore.
Import G3D VMAP Props Exact TransformProps ExactProps.
Local Open Scope R_scope.

Local Abbreviation ModelSpawn := (VMAP.ModelSpawn xreal).
Local Abbreviation ModelInstance := (VMAP.ModelInstance xreal).
Local Abbreviation WorldModel := (VMAP.WorldModel xreal).

Local Ltac xeval :=
  cbv [fromEulerAnglesZYX inverse determinant transpose mulMM mulMV mulVM
       vadd vsub vscale identity
       m00 m01 m02 m10 m11 m12 m20 m21 m22 x y z
       fzero fone finf fopp fadd fsub fmul fdiv feqb fltb fleb
       fpi f180 fcos fsin xreal_ops xreal_trig
       xopp xadd xsub xmul xdiv xtrig].

(** For the rotation built from three finite Euler angles, the cofactor
    inverse is the transpose. *)
Lemma rotation_inverse_transpose (a b c : R) :
  inverse (fromEulerAnglesZYX (Finite a) (Finite b) (Finite c))
  = transpose (fromEulerAnglesZYX (Finite a) (Finite b) (Finite c)).
Proof.
  pose proof (ExactFacts.rotation_determinant a b c) as Hdet.
  revert Hdet. xeval. intros Hdet. injection Hdet as Hdet. rewrite Hdet.
  destruct (Req_dec_T 1 0) as [H0 | _]; [lra | ].
  clear Hdet.
  assert (Ha : sin a * sin a = 1 - cos a * cos a)
    by (pose proof (sin2_cos2 a) as H; unfold Rsqr in H; lra).
  assert (Hb : sin b * sin b = 1 - cos b * cos b)
    by (pose proof (sin2_cos2 b) as H; unfold Rsqr in H; lra).
  assert (Hc : sin c * sin c = 1 - cos c * cos c)
    by (pose proof (sin2_cos2 c) as H; unfold Rsqr in H; lra).
  generalize dependent (cos a). generalize dependent (sin a).
  generalize dependent (cos b). generalize dependent (sin b).
  generalize dependent (cos c). generalize dependent (sin c).
  intros sc cc Hc sb cb Hb sa ca Ha.
  replace (1 / 1) with 1 by field.
  f_equal; f_equal; ring [Ha Hb Hc].
Qed.

(** X9: the rotation that the constructor inverts, for finite Euler
    angles, has determinant 1, and the matrix the constructor stores is
    its transpose: for these matrices [inverse()] is [transpose()], as the
    comment in the source says. *)
Theorem stored_inverse_is_transpose (sp : ModelSpawn)
    (model : option WorldModel) :
  is_finite (x (iRot sp)) -> is_finite (y (iRot sp)) ->
  is_finite (z (iRot sp)) ->
  determinant (rotation_of sp) = Finite 1
  /\ iInvRot (ModelInstance_new sp model) = transpose (rotation_of sp).
Proof.
  intros Hx Hy Hz. unfold ModelInstance_new, rotation_of. cbn [iInvRot].
  destruct (iRot sp) as [[rx| | |] [ry| | |] [rz| | |]];
    cbn [x y z is_finite] in *; try contradiction.
  rewrite !ExactFacts.radians_finite.
  split; [apply ExactFacts.rotation_determinant
         | apply rotation_inverse_transpose].
Qed.

Local Ltac trig_facts a b c :=
  let Ha := fresh "Ha" in
  let Hb := fresh "Hb" in
  let Hc := fresh "Hc" in
  assert (Ha : sin a * sin a = 1 - cos a * cos a)
    by (pose proof (sin2_cos2 a) as H; unfold Rsqr in H; lra);
  assert (Hb : sin b * sin b = 1 - cos b * cos b)
    by (pose proof (sin2_cos2 b) as H; unfold Rsqr in H; lra);
  assert (Hc : sin c * sin c = 1 - cos c * cos c)
    by (pose proof (sin2_cos2 c) as H; unfold Rsqr in H; lra);
  generalize dependent (cos a); generalize dependent (sin a);
  generalize dependent (cos b); generalize dependent (sin b);
  generalize dependent (cos c); generalize dependent (sin c).

(** The transform of an instance with the transpose of a rotation as
    [iInvRot] and [1 / s] as [iInvScale]: back to world space after going
    to object space is the identity, the ground point at probe distance
    [d] lies [d * s] below the query point, and a point moved to the
    object-space height [zd] moves by [s * cos b * cos c] times the
    change of height. *)
Lemma transform_exact (a b c s ox oy oz px py pz d zd : R)
    (fl tile id : Z) (rot : G3D.Vector3 xreal) (bound : G3D.AABox xreal)
    (nm : list byte) (model : option WorldModel) :
  s <> 0 ->
  let this :=
    mkModelInstance
      (mkModelSpawn fl tile id
                    (mkVector3 (Finite ox) (Finite oy) (Finite oz)) rot
                    (Finite s) bound nm)
      (transpose (fromEulerAnglesZYX (Finite a) (Finite b) (Finite c)))
      (Finite (1 / s)) model in
  let p := mkVector3 (Finite px) (Finite py) (Finite pz) in
  toWorld this (toModel this p) = p
  /\ worldHeight this (modelGround this p (Finite d)) = Finite (pz - d * s)
  /\ exists mx my mz,
      toModel this p = mkVector3 (Finite mx) (Finite my) (Finite mz)
      /\ worldHeight this (mkVector3 (Finite mx) (Finite my) (Finite zd))
         = Finite (pz + s * (cos b * cos c) * (zd - mz)).
Proof.
  intros Hs this p. subst this p.
  assert (Hi : s * (1 / s) = 1) by (field; exact Hs).
  generalize dependent (1 / s). intros i Hi.
  unfold toWorld, worldHeight, modelGround, toModel, zDirModel.
  cbn [iInvRot iInvScale iScale iPos spawn].
  xeval.
  trig_facts a b c. intros sc cc Hc sb cb Hb sa ca Ha.
  split; [ | split].
  - f_equal; f_equal; ring [Ha Hb Hc Hi].
  - f_equal; ring [Ha Hb Hc Hi].
  - do 3 eexists. split; [reflexivity | ].
    f_equal; ring [Ha Hb Hc Hi].
Qed.

Lemma constructed_instance (sp : ModelSpawn) (model : option WorldModel)
    (rx ry rz ox oy oz s : R) :
  iRot sp = mkVector3 (Finite rx) (Finite ry) (Finite rz) ->
  iPos sp = mkVector3 (Finite ox) (Finite oy) (Finite oz) ->
  iScale sp = Finite s -> s <> 0 ->
  ModelInstance_new sp model
  = mkModelInstance
      (mkModelSpawn (flags sp) (adtId sp) (ID sp)
                    (mkVector3 (Finite ox) (Finite oy) (Finite oz))
                    (iRot sp) (Finite s) (iBound sp) (name sp))
      (transpose (fromEulerAnglesZYX (Finite (PI * ry / 180))
                                     (Finite (PI * rx / 180))
                                     (Finite (PI * rz / 180))))
      (Finite (1 / s)) model.
Proof.
  intros Hrot Hpos Hscale Hs. unfold ModelInstance_new.
  rewrite Hscale, (ExactFacts.xdiv_one s Hs).
  rewrite Hrot. cbn [x y z]. rewrite !ExactFacts.radians_finite.
  rewrite rotation_inverse_transpose.
  destruct sp as [fl ad id ps rt sc bd nm]. cbn in *. subst. reflexivity.
Qed.

(** X10: for an instance made by the constructor from finite Euler
    angles, a finite position and a finite scale other than zero, the
    back-transform undoes the transform to object space, and the ground
    point that a probe finds at object-space distance [d] has the world
    height [p.z - d * scale], whatever the rotation is. *)
Theorem ground_height_exact (sp : ModelSpawn) (model : option WorldModel)
    (px py pz s : R) :
  is_finite (x (iRot sp)) -> is_finite (y (iRot sp)) ->
  is_finite (z (iRot sp)) -> finite3 (iPos sp) ->
  iScale sp = Finite s -> s <> 0 ->
  let this := ModelInstance_new sp model in
  let p := mkVector3 (Finite px) (Finite py) (Finite pz) in
  toWorld this (toModel this p) = p
  /\ forall d,
      worldHeight this (modelGround this p (Finite d)) = Finite (pz - d * s).
Proof.
  intros Hx Hy Hz (Hox & Hoy & Hoz) Hscale Hs this p. subst this.
  destruct (iRot sp) as [[rx| | |] [ry| | |] [rz| | |]] eqn:Hrot;
    cbn [x y z is_finite] in *; try contradiction.
  destruct (iPos sp) as [[ox| | |] [oy| | |] [oz| | |]] eqn:Hpos;
    cbn [x y z is_finite] in *; try contradiction.
  rewrite (constructed_instance sp model rx ry rz ox oy oz s
             Hrot Hpos Hscale Hs).
  split.
  - apply (transform_exact _ _ _ s ox oy oz px py pz 0 0 _ _ _ _ _ _ _ Hs).
  - intros d.
    apply (transform_exact _ _ _ s ox oy oz px py pz d 0 _ _ _ _ _ _ _ Hs).
Qed.

(** X11: for such an instance, a sub-group that reports liquid at the
    object-space height [zd]: [GetLiquidLevel] returns the query height
    plus [scale * cos pitch * cos roll * (zd - pModel.z)], with pitch from
    [iRot.x] and roll from [iRot.z]; liquid found at the object-space
    height of the query point itself is reported at the height of the
    query point. *)
Theorem liquid_height_exact (sp : ModelSpawn) (model : option WorldModel)
    (px py pz s rx rz zd : R) (info : LocationInfo xreal) (g : GroupModel xreal)
    (liqHeight : xreal) (calls : list (MeshCall xreal)) :
  x (iRot sp) = Finite rx -> is_finite (y (iRot sp)) ->
  z (iRot sp) = Finite rz -> finite3 (iPos sp) ->
  iScale sp = Finite s -> s <> 0 ->
  let this := ModelInstance_new sp model in
  let p := mkVector3 (Finite px) (Finite py) (Finite pz) in
  li_hitModel info = Some g ->
  gm_GetLiquidLevel g (toModel this p) = (true, Finite zd) ->
  exists mz,
    z (toModel this p) = Finite mz
    /\ returned (GetLiquidLevel this p info liqHeight calls)
       = Some (true,
               Finite (pz + s * (cos (PI * rx / 180) * cos (PI * rz / 180))
                             * (zd - mz))).
Proof.
  intros Hx Hy Hz (Hox & Hoy & Hoz) Hscale Hs this p Hg Hliq.
  rewrite (QueryFacts.GetLiquidLevel_answer this p info liqHeight calls g Hg).
  cbn [returned]. unfold liquid_answer.
  fold (toModel this p). rewrite Hliq. cbn [fst snd].
  fold (worldHeight this (mkVector3 (x (toModel this p)) (y (toModel this p))
                                    (Finite zd))).
  clear Hliq. subst this p.
  destruct (iRot sp) as [rx' [ry| | |] rz'] eqn:Hrot;
    cbn [x y z is_finite] in *; try contradiction. subst rx' rz'.
  destruct (iPos sp) as [[ox| | |] [oy| | |] [oz| | |]] eqn:Hpos;
    cbn [x y z is_finite] in *; try contradiction.
  rewrite (constructed_instance sp model rx ry rz ox oy oz s
             Hrot Hpos Hscale Hs).
  destruct (transform_exact (PI * ry / 180) (PI * rx / 180) (PI * rz / 180)
              s ox oy oz px py pz 0 zd (flags sp) (adtId sp) (ID sp)
              (iRot sp) (iBound sp) (name sp) model Hs)
    as (_ & _ & mx & my & mz & Hmodel & Hheight).
  rewrite Hrot in *. rewrite Hmodel. cbn [x y z].
  exists mz. split; [reflexivity | ]. now rewrite Hheight.
Qed.

(** X12: for an instance and a ray without infinities and NaN, the point
    at distance [t] on the world-space ray goes to the point at distance
    [t * iInvScale] on the object-space ray that [intersectRay] hands to
    the mesh.  With [iInvScale = 1 / iScale] and the scale not zero, a
    hit that the mesh reports at the object-space distance [d] makes
    [intersectRay] return the distance [d * iScale], and the point at
    that distance on the world-space ray is the one the mesh hit. *)
Theorem hit_point_corresponds (intersectionTime : G3D.Ray xreal -> G3D.AABox xreal -> xreal)
    (this : ModelInstance) (m : WorldModel) (pRay : G3D.Ray xreal)
    (pMaxDist : xreal) (stop ign : bool) (calls : list (MeshCall xreal))
    (s d : R) :
  finiteM (iInvRot this) -> finite3 (iPos this) ->
  finite3 (origin pRay) -> finite3 (direction pRay) ->
  iScale this = Finite s -> s <> 0 -> iInvScale this = Finite (1 / s) ->
  iModel this = Some m ->
  feqb (intersectionTime pRay (iBound this)) finf = false ->
  wm_IntersectRay m (modRay this pRay) (fmul pMaxDist (iInvScale this))
                  stop ign = (true, Finite d) ->
  (forall t, toModel this (ray_point pRay (Finite t))
             = ray_point (modRay this pRay) (fmul (Finite t) (iInvScale this)))
  /\ returned (intersectRay intersectionTime this pRay pMaxDist stop ign calls)
     = Some (true, Finite (d * s))
  /\ toModel this (ray_point pRay (Finite (d * s)))
     = ray_point (modRay this pRay) (Finite d).
Proof.
  intros Hm Hp Ho Hd Hsc Hs Hinv Hmodel Htime Hhit.
  assert (Hray : forall t,
             toModel this (ray_point pRay (Finite t))
             = ray_point (modRay this pRay)
                         (fmul (Finite t) (iInvScale this))).
  { clear Hhit Htime Hmodel. intros t.
    destruct this as [[fl ad id ps rt sc bd nm] mi i md].
    destruct pRay as [o dir].
    cbn [iInvRot iPos iInvScale iScale spawn origin direction] in *.
    destruct mi as [a00 a01 a02 a10 a11 a12 a20 a21 a22].
    destruct Hm as (H00 & H01 & H02 & H10 & H11 & H12 & H20 & H21 & H22).
    cbn [m00 m01 m02 m10 m11 m12 m20 m21 m22] in *.
    destruct ps as [ox oy oz]. destruct o as [qx qy qz].
    destruct dir as [dx dy dz].
    destruct Hp as (Hp1 & Hp2 & Hp3). destruct Ho as (Ho1 & Ho2 & Ho3).
    destruct Hd as (Hd1 & Hd2 & Hd3). cbn [x y z] in *.
    subst i.
    repeat match goal with
           | H : is_finite ?v |- _ =>
               is_var v; destruct v; [clear H | exact (False_ind _ H) ..]
           end.
    unfold ray_point, modRay, toModel.
    cbn [iInvRot iPos iInvScale iScale spawn origin direction].
    cbv [origin direction]. xeval. f_equal; f_equal; ring. }
  split; [exact Hray | ].
  split.
  - rewrite (QueryFacts.intersectRay_delegates intersectionTime this m pRay
               pMaxDist stop ign calls Hmodel Htime).
    cbv zeta. fold (modRay this pRay). rewrite Hhit. cbn [fst snd returned].
    rewrite Hsc. reflexivity.
  - rewrite Hray, Hinv. cbn [fmul xreal_ops xmul].
    do 2 f_equal. field. exact Hs.
Qed.
End ExactMore.

(** ** More on the point and location lookups *)

Module QueryMore.
Import G3D VMAP Props TransformProps.

Section Generic.
Context {float : Type} {FO : FloatOps float}.
Variable intersectionTime : G3D.Ray float -> G3D.AABox float -> float.
Variable MOD_M2 : Z.
Local Open Scope float_scope.

Local Abbreviation Vector3 := (G3D.Vector3 float).
Local Abbreviation ModelInstance := (VMAP.ModelInstance float).
Local Abbreviation AreaInfo := (VMAP.AreaInfo float).
Local Abbreviation LocationInfo := (VMAP.LocationInfo float).
Local Abbreviation intersectRay := (VMAP.intersectRay intersectionTime).
Local Abbreviation intersectPoint := (VMAP.intersectPoint MOD_M2).
Local Abbreviation GetLocationInfo := (VMAP.GetLocationInfo MOD_M2).

(** X13: [intersectRay] always returns, after at most one call to the
    mesh.  When it returns false the distance is exactly the one passed
    in, on each of its three ways out.  When it returns true a mesh is
    attached, the ray meets the bound, the mesh was asked once with the
    object-space ray and the bound [pMaxDist * iInvScale], and the
    distance is the one the mesh left times [iScale]. *)
Theorem intersectRay_outcome (this : ModelInstance) (pRay : G3D.Ray float)
    (pMaxDist : float) (stop ign : bool) (calls : list (MeshCall float)) :
  let asked := CallIntersectRay (modRay this pRay)
                                (pMaxDist * iInvScale this) stop ign in
  exists hit dist calls',
    intersectRay this pRay pMaxDist stop ign calls
    = Returns (hit, dist) calls'
    /\ (calls' = calls \/ calls' = calls ++ [asked])
    /\ (hit = false -> dist = pMaxDist)
    /\ (hit = true ->
        exists m d,
          iModel this = Some m
          /\ feqb (intersectionTime pRay (iBound this)) finf = false
          /\ wm_IntersectRay m (modRay this pRay)
                             (pMaxDist * iInvScale this) stop ign
             = (true, d)
          /\ calls' = calls ++ [asked]
          /\ dist = d * iScale this).
Proof.
  intros asked. subst asked.
  destruct (iModel this) as [m|] eqn:Hm.
  2: { exists false, pMaxDist, calls.
       rewrite (QueryFacts.intersectRay_unloaded intersectionTime this pRay
                  pMaxDist stop ign calls Hm).
       repeat split; auto. discriminate. }
  destruct (feqb (intersectionTime pRay (iBound this)) finf) eqn:Ht.
  { exists false, pMaxDist, calls. unfold VMAP.intersectRay.
    rewrite Hm, Ht. repeat split; auto. discriminate. }
  rewrite (QueryFacts.intersectRay_delegates intersectionTime this m pRay
             pMaxDist stop ign calls Hm Ht).
  cbv zeta. fold (modRay this pRay).
  destruct (wm_IntersectRay m (modRay this pRay) (pMaxDist * iInvScale this)
                            stop ign) as [hit d] eqn:Hr.
  cbn [fst snd]. destruct hit.
  - do 3 eexists. split; [reflexivity | ]. split; [now right | ].
    split; [discriminate | ]. intros _. exists m, d. repeat split; auto.
  - do 3 eexists. split; [reflexivity | ]. split; [now right | ].
    split; [reflexivity | discriminate].
Qed.

(** X7: [GetLocationInfo] always returns, after at most one call to the
    mesh.  When it returns false the result is exactly the one passed in.
    When it returns true a mesh is attached, the M2 bit is clear, the
    point is inside the bound, the mesh was asked once, the result names
    this instance, and its height is the candidate height and is strictly
    above the height that was recorded before. *)
Theorem GetLocationInfo_outcome (this : ModelInstance) (p : Vector3)
    (info : LocationInfo) (calls : list (MeshCall float)) :
  exists b info' calls',
    GetLocationInfo this p info calls = Returns (b, info') calls'
    /\ (calls' = calls
        \/ calls' = calls ++ [CallGetLocationInfo (toModel this p)
                                                  (zDirModel this)])
    /\ (b = false -> info' = info)
    /\ (b = true ->
        exists m zDist groupInfo,
          iModel this = Some m
          /\ Z.land (flags this) MOD_M2 = 0%Z
          /\ contains (iBound this) p = true
          /\ wm_GetLocationInfo m (toModel this p) (zDirModel this)
                                GroupLocationInfo_default
             = (true, zDist, groupInfo)
          /\ calls' = calls ++ [CallGetLocationInfo (toModel this p)
                                                    (zDirModel this)]
          /\ li_hitInstance info' = Some this
          /\ li_hitModel info' = gl_hitModel groupInfo
          /\ li_rootId info' = gl_rootId groupInfo
          /\ li_ground_Z info'
             = worldHeight this (modelGround this p zDist)
          /\ fltb (li_ground_Z info) (li_ground_Z info') = true).
Proof.
  destruct (iModel this) as [m|] eqn:Hm.
  2: { exists false, info, calls. unfold VMAP.GetLocationInfo. rewrite Hm.
       repeat split; auto. discriminate. }
  destruct (Z.land (flags this) MOD_M2 =? 0)%Z eqn:Hf.
  2: { exists false, info, calls. unfold VMAP.GetLocationInfo.
       rewrite Hm, Hf. repeat split; auto. discriminate. }
  destruct (contains (iBound this) p) eqn:Hc.
  2: { exists false, info, calls. unfold VMAP.GetLocationInfo.
       rewrite Hm, Hf, Hc. repeat split; auto. discriminate. }
  apply Z.eqb_eq in Hf.
  rewrite (QueryFacts.GetLocationInfo_delegates MOD_M2 this m p info calls
             Hm Hf Hc).
  destruct (wm_GetLocationInfo m (toModel this p) (zDirModel this)
                               GroupLocationInfo_default)
    as [[hit zDist] gi] eqn:Hr.
  cbn [fst snd].
  destruct hit; cbn [andb].
  - destruct (fltb (li_ground_Z info)
                   (worldHeight this (modelGround this p zDist))) eqn:Hlt.
    + do 3 eexists. split; [reflexivity | ]. split; [now right | ].
      split; [discriminate | ]. intros _.
      exists m, zDist, gi. cbn [li_hitInstance li_hitModel li_rootId li_ground_Z].
      repeat split; auto.
    + do 3 eexists. split; [reflexivity | ]. split; [now right | ].
      split; [reflexivity | discriminate].
  - do 3 eexists. split; [reflexivity | ]. split; [now right | ].
    split; [reflexivity | discriminate].
Qed.

(** X8: [intersectPoint] on an instance whose mesh, if one is attached,
    leaves the recorded height and tile id alone: it always returns, and
    either height and tile id are both what they were, or the height is
    strictly above the one recorded before and the tile id is the one of
    this instance.  The recorded height never goes down and the tile id
    never changes without it. *)
Theorem intersectPoint_raises_or_keeps (this : ModelInstance) (p : Vector3)
    (info : AreaInfo) (calls : list (MeshCall float)) :
  (forall m, iModel this = Some m -> keeps_ground m) ->
  exists info' calls',
    intersectPoint this p info calls = Returns info' calls'
    /\ ((ai_ground_Z info' = ai_ground_Z info
         /\ ai_adtId info' = ai_adtId info)
        \/ (fltb (ai_ground_Z info) (ai_ground_Z info') = true
            /\ ai_adtId info' = adtId this)).
Proof.
  intros Hkeep.
  destruct (iModel this) as [m|] eqn:Hm.
  2: { exists info, calls. unfold VMAP.intersectPoint. rewrite Hm. auto. }
  destruct (Z.land (flags this) MOD_M2 =? 0)%Z eqn:Hf.
  2: { exists info, calls. unfold VMAP.intersectPoint. rewrite Hm, Hf. auto. }
  destruct (contains (iBound this) p) eqn:Hc.
  2: { exists info, calls. unfold VMAP.intersectPoint.
       rewrite Hm, Hf, Hc. auto. }
  apply Z.eqb_eq in Hf.
  rewrite (QueryFacts.intersectPoint_delegates MOD_M2 this m p info calls
             Hm Hf Hc).
  pose proof (Hkeep m eq_refl (toModel this p) (zDirModel this) info) as Hk.
  cbv zeta in Hk.
  destruct (wm_IntersectPoint m (toModel this p) (zDirModel this) info)
    as [[hit zDist] info1].
  cbn [fst snd] in *. destruct Hk as [Hg Ha].
  destruct hit.
  - destruct (fltb (ai_ground_Z info1)
                   (worldHeight this (modelGround this p zDist))) eqn:Hlt.
    + do 2 eexists. split; [reflexivity | ]. right.
      cbn [set_ground_adt ai_ground_Z ai_adtId]. rewrite <- Hg. auto.
    + do 2 eexists. split; [reflexivity | ]. left. auto.
  - do 2 eexists. split; [reflexivity | ]. left. auto.
Qed.
End Generic.
End QueryMore.

(** ** The further statements on example values *)

Module ConcreteMore.
Import G3D VMAP Props Fixtures.

(** *** binary32 *)
Module OnBinary32.
Import Binary32 Fixtures.B32 MoreFixtures.B32 CodecProps.
Local Open Scope Z_scope.

Lemma binary32_bits_kept : bits_kept (float := binary32).
Proof. intros v _. reflexivity. Defined.

Local Ltac in_range := split; [vm_compute; discriminate | vm_compute; reflexivity].
Local Ltac a_float := split; [in_range | reflexivity].
Local Ltac a_vector := split; [a_float | split; a_float].

Lemma tree_spawn_typed : Codec.well_typed MOD_HAS_BOUND tree_spawn.
Proof.
  unfold Codec.well_typed.
  split; [in_range | ]. split; [in_range | ]. split; [in_range | ].
  split; [a_vector | ]. split; [a_vector | ]. split; [a_float | ].
  intros _. split; a_vector.
Defined.

Lemma verbose_spawn_typed : Codec.well_typed MOD_HAS_BOUND verbose_spawn.
Proof.
  unfold Codec.well_typed.
  split; [in_range | ]. split; [in_range | ]. split; [in_range | ].
  split; [a_vector | ]. split; [a_vector | ]. split; [a_float | ].
  intros H. vm_compute in H. discriminate H.
Defined.

Lemma oversized_name_rejected_witness :
  exists s',
    Codec.readFromFile MOD_HAS_BOUND oversized_stream blank_spawn
    = (false, s', after_header MOD_HAS_BOUND oversized_stream)
    /\ name s' = name blank_spawn
    /\ flags s' = Codec.stream_flags oversized_stream.
Proof.
  apply (CodecMore.oversized_name_rejected MOD_HAS_BOUND oversized_stream
           blank_spawn).
  - vm_compute. lia.
  - vm_compute. reflexivity.
Defined.

Lemma truncated_name_rejected_witness :
  exists s',
    Codec.readFromFile MOD_HAS_BOUND truncated_stream blank_spawn
    = (false, s', [])
    /\ name s' = name blank_spawn.
Proof.
  apply (CodecMore.truncated_name_rejected MOD_HAS_BOUND truncated_stream
           blank_spawn).
  - vm_compute. lia.
  - vm_compute. discriminate.
  - vm_compute. reflexivity.
Defined.

Lemma decoded_reencodes_witness :
  let rf := Codec.record_layout MOD_HAS_BOUND tree_spawn ++ [Byte.x00] in
  let wf := Codec.mkWfile [] 100 in
  rf = Codec.record_layout MOD_HAS_BOUND tree_spawn ++ [Byte.x00]
  /\ (length (name tree_spawn) <= 500)%nat
  /\ 0 <= flags tree_spawn < 2 ^ 32 /\ 0 <= adtId tree_spawn < 2 ^ 16
  /\ 0 <= ID tree_spawn < 2 ^ 32
  /\ ((length (Codec.record_layout MOD_HAS_BOUND tree_spawn)
       <= Codec.wroom wf)%nat ->
      Codec.writeToFile MOD_HAS_BOUND wf tree_spawn
      = (true,
         Codec.mkWfile
           (Codec.wbytes wf ++ Codec.record_layout MOD_HAS_BOUND tree_spawn)
           (Codec.wroom wf
            - length (Codec.record_layout MOD_HAS_BOUND tree_spawn)))).
Proof.
  apply (CodecMore.decoded_reencodes MOD_HAS_BOUND
           (Codec.record_layout MOD_HAS_BOUND tree_spawn ++ [Byte.x00])
           [Byte.x00] blank_spawn tree_spawn (Codec.mkWfile [] 100)
           binary32_bits_kept).
  vm_compute. reflexivity.
Defined.

Lemma layout_self_delimiting_witness :
  [Byte.x00] = [Byte.x00]
  /\ flags tree_spawn = flags tree_spawn
  /\ adtId tree_spawn = adtId tree_spawn /\ ID tree_spawn = ID tree_spawn
  /\ iPos tree_spawn = iPos tree_spawn /\ iRot tree_spawn = iRot tree_spawn
  /\ iScale tree_spawn = iScale tree_spawn
  /\ name tree_spawn = name tree_spawn
  /\ (Codec.has_bound_flag MOD_HAS_BOUND (flags tree_spawn) = true ->
      iBound tree_spawn = iBound tree_spawn).
Proof.
  apply (CodecMore.layout_self_delimiting MOD_HAS_BOUND tree_spawn tree_spawn
           [Byte.x00] [Byte.x00] tree_spawn_typed tree_spawn_typed).
  - vm_compute. lia.
  - vm_compute. lia.
  - reflexivity.
Defined.

Lemma long_name_written_then_rejected_witness :
  let wf := Codec.mkWfile [] 1000 in
  Codec.writeToFile MOD_HAS_BOUND wf verbose_spawn
  = (true,
     Codec.mkWfile
       (Codec.wbytes wf ++ Codec.record_layout MOD_HAS_BOUND verbose_spawn)
       (Codec.wroom wf
        - length (Codec.record_layout MOD_HAS_BOUND verbose_spawn)))
  /\ exists s',
      Codec.readFromFile MOD_HAS_BOUND
        (Codec.record_layout MOD_HAS_BOUND verbose_spawn ++ [Byte.x00])
        blank_spawn
      = (false, s', name verbose_spawn ++ [Byte.x00])
      /\ name s' = name blank_spawn.
Proof.
  apply (CodecMore.long_name_written_then_rejected MOD_HAS_BOUND verbose_spawn
           blank_spawn (Codec.mkWfile [] 1000) [Byte.x00]
           verbose_spawn_typed).
  - vm_compute. lia.
  - vm_compute. reflexivity.
  - vm_compute. lia.
Defined.

Lemma intersectPoint_raises_or_keeps_witness :
  exists info' calls',
    intersectPoint MOD_M2 lower above (no_area (f 0)) []
    = Returns info' calls'
    /\ ((ai_ground_Z info' = ai_ground_Z (no_area (f 0))
         /\ ai_adtId info' = ai_adtId (no_area (f 0)))
        \/ (fltb (ai_ground_Z (no_area (f 0))) (ai_ground_Z info') = true
            /\ ai_adtId info' = adtId lower)).
Proof.
  apply (QueryMore.intersectPoint_raises_or_keeps MOD_M2 lower above
           (no_area (f 0)) []).
  intros m Hm. injection Hm as <-.
  apply Concrete.surface_mesh_keeps_ground.
Defined.
End OnBinary32.

(** *** exact arithmetic *)
Module OnExact.
Import Exact Fixtures.X MoreFixtures.X TransformProps ExactProps ExactFacts.
Local Open Scope R_scope.

Lemma stored_inverse_is_transpose_witness :
  determinant (rotation_of turned) = Finite 1
  /\ iInvRot (ModelInstance_new turned None) = transpose (rotation_of turned).
Proof. exact (ExactMore.stored_inverse_is_transpose turned None I I I). Defined.

Lemma ground_height_exact_witness :
  let this := ModelInstance_new turned None in
  let p := mkVector3 (Finite 1) (Finite 2) (Finite 10) in
  toWorld this (toModel this p) = p
  /\ forall d,
      worldHeight this (modelGround this p (Finite d))
      = Finite (10 - d * 2).
Proof.
  apply (ExactMore.ground_height_exact turned None 1 2 10 2 I I I).
  - repeat split.
  - reflexivity.
  - lra.
Defined.

Lemma liquid_height_exact_witness :
  let this := ModelInstance_new turned None in
  let p := mkVector3 (Finite 1) (Finite 2) (Finite 10) in
  exists mz,
    z (toModel this p) = Finite mz
    /\ returned (GetLiquidLevel this p pool_info (Finite 0) [])
       = Some (true,
               Finite (10 + 2 * (cos (PI * 90 / 180) * cos (PI * 0 / 180))
                             * (3 - mz))).
Proof.
  apply (ExactMore.liquid_height_exact turned None 1 2 10 2 90 0 3 pool_info
           (pool (Finite 3)) (Finite 0) [] eq_refl I eq_refl).
  - repeat split.
  - reflexivity.
  - lra.
  - reflexivity.
  - reflexivity.
Defined.

Lemma hit_point_corresponds_witness :
  (forall t, toModel doubled (ray_point ray_out (Finite t))
             = ray_point (modRay doubled ray_out)
                         (fmul (Finite t) (iInvScale doubled)))
  /\ returned (intersectRay inside_time doubled ray_out (Finite 10)
                            false false [])
     = Some (true, Finite (4 * 2))
  /\ toModel doubled (ray_point ray_out (Finite (4 * 2)))
     = ray_point (modRay doubled ray_out) (Finite 4).
Proof.
  apply (ExactMore.hit_point_corresponds inside_time doubled
           (surface_mesh (Finite 4) (Finite 1) None) ray_out (Finite 10)
           false false [] 2 4).
  - repeat split.
  - repeat split.
  - repeat split.
  - repeat split.
  - reflexivity.
  - lra.
  - apply xdiv_one. lra.
  - reflexivity.
  - cbv [inside_time contains doubled placed iBound spawn wide_box ray_out
         origin vec low high x y z fleb xreal_ops xleb].
    repeat match goal with
           | |- context [Rle_dec ?a ?b] => destruct (Rle_dec a b); [ | lra]
           end.
    reflexivity.
  - cbn [wm_IntersectRay surface_mesh doubled placed iInvScale].
    rewrite (xdiv_one 2) by lra.
    cbn [fmul xreal_ops xmul].
    replace (fleb (Finite 4) (Finite (10 * (1 / 2)))) with true;
      [reflexivity | ].
    symmetry. apply xleb_finite. lra.
Defined.
End OnExact.
End ConcreteMore.
